(** * Checkout operations of the git command execution core

    A shallow embedding of [app/src/lib/git/checkout.ts]: the argument
    builders ([getCheckoutArgs], [getBranchCheckoutArgs]), the construction of
    the execution options with the progress adapter ([getCheckoutOpts]) and the
    three operations [checkoutBranch], [checkoutCommit] and [checkoutPaths].

    Asynchronous functions are embedded in a small trace-and-error monad
    ([Async]): a computation yields the ordered list of observable events it
    caused (calls of the caller's progress callback, invocations of git) and
    either the error it rejected with or the value it resolved with.

    The development also covers [checkoutConflictedFile], the autocompleting
    text input whose source follows in the same file (module
    [Autocomplete]) and the packaging script [script/package.ts] (module
    [Package]). *)

From Stdlib Require Import List String QArith Sorted.
From Stdlib Require Import Qminmax PeanoNat Lia.
Import ListNotations.

Local Close Scope Q_scope.
Local Open Scope string_scope.
Local Open Scope list_scope.

Set Implicit Arguments.

(** ** Data model *)

(** Modelled from the spec: the branch descriptor of [models/branch.ts] (the
    model is an external collaborator); the core reads the branch name, the
    remote-or-local flag and the local name of a remote-tracking branch. *)
Inductive BranchType : Type :=
| Local
| Remote.

Record Branch : Type := {
  name : string;
  type : BranchType;
  nameWithoutRemote : string
}.

(** Modelled from the spec: the commit descriptor of [models/commit.ts]. *)
Record CommitOneLine : Type := {
  sha : string;
  summary : string
}.

(** Modelled from the spec: of a repository the core only reads its path. *)
Record Repository : Type := {
  path : string
}.

(** [ICheckoutProgress] as the object literals of [getCheckoutOpts] build it. *)
Record ICheckoutProgress : Type := {
  kind : string;
  title : string;
  description : string;
  value : Q;
  target : string
}.

(** Modelled from the spec: what the progress parser hands to the adapter, a
    line of kind "progress" (with a percentage and a text) or any other line.
    The adapter reads [progress.kind], [progress.percent] and
    [progress.details.text]. *)
Inductive ParsedLine : Type :=
| ProgressLine (percent : Q) (details_text : string)
| RawLine (text : string).

(** ** External collaborators

    Everything [checkout.ts] imports and this development does not have the
    code of is a parameter. *)
Class Collaborators : Type := {
  IGitAccount : Type;
  Env : Type;
  Url : Type;
  ErrorTable : Type;
  GitError : Type;
  IGitResult : Type;
  GitProgressParser : Type;
  (** the identity of a caller-supplied progress function *)
  ProgressCallback : Type;

  (** [gitNetworkArguments()] of [./core] *)
  gitNetworkArguments : list string;
  (** [enableRecurseSubmodulesFlag()] of [../feature-flag] *)
  enableRecurseSubmodulesFlag : bool;
  (** the global [__DARWIN__] *)
  __DARWIN__ : bool;
  (** [shortenSHA] of [models/commit] *)
  shortenSHA : string -> string;
  (** [AuthenticationErrors] of [./authentication] *)
  AuthenticationErrors : ErrorTable;
  (** [envForRemoteOperation] and [getFallbackUrlForProxyResolve] of
      [./environment] *)
  getFallbackUrlForProxyResolve : option IGitAccount -> Repository -> Url;
  envForRemoteOperation : option IGitAccount -> Url -> Env;
  (** [new CheckoutProgressParser()] of [../progress] *)
  CheckoutProgressParser : GitProgressParser;
  (** the lines a parser makes of the chunks a process writes *)
  parse : GitProgressParser -> list string -> list ParsedLine;
  (** what the git binary does when spawned with these arguments in this
      directory: the chunks it writes and how it exits *)
  spawn_output : list string -> string -> list string;
  spawn_exit : list string -> string -> GitError + IGitResult
}.

Section Checkout.

Context {X : Collaborators}.

(** One call [progressCallback(progress)] of a caller-supplied function. *)
Inductive Invocation : Type :=
| Invoke (callback : ProgressCallback) (progress : ICheckoutProgress).

Definition invoked_with (i : Invocation) : ICheckoutProgress :=
  match i with Invoke _ p => p end.

(** The process callback the progress adapter attaches to the options: the
    parser and the handler of its lines. A handler is given by the calls of
    the caller's function it makes for a line. *)
Record ProcessCallback : Type := {
  parser : GitProgressParser;
  onProgress : ParsedLine -> list Invocation
}.

(** [IGitExecutionOptions], the fields [checkout.ts] uses; an optional field
    that is absent is [None]. *)
Record IGitExecutionOptions : Type := {
  env : Env;
  expectedErrors : option ErrorTable;
  trackLFSProgress : option bool;
  processCallback : option ProcessCallback
}.

(** ** Observable events and the [Async] monad *)

Inductive Event : Type :=
| Callback (i : Invocation)
| Git (args : list string) (cwd : string) (operation : string)
      (options : option IGitExecutionOptions).

Definition Async (A : Type) : Type := (list Event * (GitError + A))%type.

Definition ret (A : Type) (a : A) : Async A := ([], inr a).

Definition reject (A : Type) (e : GitError) : Async A := ([], inl e).

Definition bind (A B : Type) (m : Async A) (k : A -> Async B) : Async B :=
  match m with
  | (t, inl e) => (t, inl e)
  | (t, inr a) => let (t', r) := k a in (t ++ t', r)
  end.

Definition emit (es : list Event) : Async unit := (es, inr tt).

Definition trace (A : Type) (m : Async A) : list Event := fst m.

Definition outcome (A : Type) (m : Async A) : GitError + A := snd m.

End Checkout.

Arguments ret {X A} a.
Arguments reject {X A} e.
Arguments bind {X A B} m k.

Notation "x <- m ;; k" := (bind m (fun x => k))
  (at level 61, m at next level, right associativity).
Notation "m ;;; k" := (bind m (fun _ => k))
  (at level 61, right associativity).

Section Operations.

Context {X : Collaborators}.

(** ** The process runner and the progress adapter *)

(** Modelled from the spec: [git] of [./core], the process runner (4.1) with
    the streaming consumer of the progress adapter (4.3). It spawns git with
    the arguments in the working directory; when the options carry a process
    callback, the chunks the process writes go through its parser and every
    parsed line, in order, to its handler; it resolves with the result of a
    normal exit and rejects with the execution error otherwise. *)
Definition git (args : list string) (cwd : string) (operation : string)
    (options : option IGitExecutionOptions) : Async IGitResult :=
  emit [Git args cwd operation options] ;;;
  emit (match options with
        | Some o =>
            match processCallback o with
            | Some pc =>
                map Callback
                  (flat_map (onProgress pc)
                     (parse (parser pc) (spawn_output args cwd)))
            | None => []
            end
        | None => []
        end) ;;;
  match spawn_exit args cwd with
  | inl e => reject e
  | inr r => ret r
  end.

(** Modelled from the spec: [executionOptionsWithProgress] of [../progress],
    the progress adapter (4.3): it wraps the options it is given with
    progress tracking, attaching the parser and the handler of its lines. *)
Definition executionOptionsWithProgress (options : IGitExecutionOptions)
    (parser : GitProgressParser)
    (progressCallback : ParsedLine -> list Invocation)
    : Async IGitExecutionOptions :=
  ret {| env := env options;
         expectedErrors := expectedErrors options;
         trackLFSProgress := trackLFSProgress options;
         processCallback :=
           Some {| parser := parser; onProgress := progressCallback |} |}.

(** ** [checkout.ts] *)

Definition getCheckoutArgs (progressCallback : option ProgressCallback)
    : list string :=
  match progressCallback with
  | Some _ => gitNetworkArguments ++ ["checkout"; "--progress"]
  | None => gitNetworkArguments ++ ["checkout"]
  end.

Definition getBranchCheckoutArgs (branch : Branch) : Async (list string) :=
  let baseArgs : list string := [] in
  if enableRecurseSubmodulesFlag then
    match type branch with
    | Remote =>
        ret (baseArgs ++ [name branch; "-b"; nameWithoutRemote branch;
                          "--recurse-submodules"; "--"])
    | Local =>
        ret (baseArgs ++ [name branch; "--recurse-submodules"; "--"])
    end
  else
    match type branch with
    | Remote =>
        ret (baseArgs ++ [name branch; "-b"; nameWithoutRemote branch; "--"])
    | Local => ret (baseArgs ++ [name branch; "--"])
    end.

(** The handler [progress => { ... }] that [getCheckoutOpts] hands to
    [executionOptionsWithProgress], closed over [kind], [title], [target] and
    the caller's function. *)
Definition onCheckoutProgress (progressCallback : ProgressCallback)
    (kind title target : string) (progress : ParsedLine)
    : list Invocation :=
  match progress with
  | ProgressLine percent details_text =>
      let description := details_text in
      let value := percent in
      [Invoke progressCallback
         {| kind := kind; title := title; description := description;
            value := value; target := target |}]
  | RawLine _ => []
  end.

Definition getCheckoutOpts (repository : Repository)
    (account : option IGitAccount) (title target : string)
    (progressCallback : option ProgressCallback)
    (initialDescription : option string) : Async IGitExecutionOptions :=
  let opts :=
    {| env := envForRemoteOperation account
                (getFallbackUrlForProxyResolve account repository);
       expectedErrors := Some AuthenticationErrors;
       trackLFSProgress := None;
       processCallback := None |} in
  match progressCallback with
  | None => ret opts
  | Some callback =>
      let kind := "checkout" in
      (* Initial progress *)
      emit [Callback
              (Invoke callback
                 {| kind := kind; title := title;
                    description := match initialDescription with
                                   | Some d => d
                                   | None => title
                                   end;
                    value := 0; target := target |})] ;;;
      executionOptionsWithProgress
        {| env := env opts; expectedErrors := expectedErrors opts;
           trackLFSProgress := Some true;
           processCallback := processCallback opts |}
        CheckoutProgressParser
        (onCheckoutProgress callback kind title target)
  end.

Definition checkoutBranch (repository : Repository)
    (account : option IGitAccount) (branch : Branch)
    (progressCallback : option ProgressCallback) : Async bool :=
  opts <- getCheckoutOpts repository account
            ("Checking out branch " ++ name branch)%string
            (name branch)
            progressCallback
            (Some ("Switching to "
                   ++ (if __DARWIN__ then "Branch" else "branch"))%string) ;;
  let baseArgs := getCheckoutArgs progressCallback in
  branchArgs <- getBranchCheckoutArgs branch ;;
  let args := baseArgs ++ branchArgs in
  git args (path repository) "checkoutBranch" (Some opts) ;;;
  ret true.

Definition checkoutCommit (repository : Repository)
    (account : option IGitAccount) (commit : CommitOneLine)
    (progressCallback : option ProgressCallback) : Async bool :=
  let title :=
    ("Checking out " ++ (if __DARWIN__ then "Commit" else "commit"))%string
  in
  opts <- getCheckoutOpts repository account title
            (shortenSHA (sha commit)) progressCallback None ;;
  let baseArgs := getCheckoutArgs progressCallback in
  let args := baseArgs ++ [sha commit] in
  git args (path repository) "checkoutCommit" (Some opts) ;;;
  ret true.

Definition checkoutPaths (repository : Repository) (paths : list string)
    : Async unit :=
  git ("checkout" :: "HEAD" :: "--" :: paths) (path repository)
    "checkoutPaths" None ;;;
  ret tt.

(** ** Reading a trace *)

(** The git invocations of a trace, in order. *)
Definition gitCalls (t : list Event)
    : list (list string * string * string * option IGitExecutionOptions) :=
  flat_map (fun e => match e with
                     | Git a c n o => [(a, c, n, o)]
                     | Callback _ => []
                     end) t.

(** The calls of progress functions of a trace, in order. *)
Definition callbackCalls (t : list Event) : list Invocation :=
  flat_map (fun e => match e with
                     | Callback i => [i]
                     | Git _ _ _ _ => []
                     end) t.

(** The events of a trace that precede its first git invocation. *)
Fixpoint beforeGit (t : list Event) : list Event :=
  match t with
  | [] => []
  | Git _ _ _ _ :: _ => []
  | e :: t' => e :: beforeGit t'
  end.

(** The percentages of the lines of kind "progress", in order. *)
Definition percents (lines : list ParsedLine) : list Q :=
  flat_map (fun l => match l with
                     | ProgressLine p _ => [p]
                     | RawLine _ => []
                     end) lines.

End Operations.

(** ** Reference shapes used in the statements *)

Section Shapes.

Context {X : Collaborators}.

(** The options [getCheckoutOpts] starts from. *)
Definition baseOptions (repository : Repository)
    (account : option IGitAccount) : IGitExecutionOptions :=
  {| env := envForRemoteOperation account
              (getFallbackUrlForProxyResolve account repository);
     expectedErrors := Some AuthenticationErrors;
     trackLFSProgress := None;
     processCallback := None |}.

(** The options of a progress-tracked checkout. *)
Definition progressOptions (repository : Repository)
    (account : option IGitAccount) (callback : ProgressCallback)
    (title target : string) : IGitExecutionOptions :=
  {| env := envForRemoteOperation account
              (getFallbackUrlForProxyResolve account repository);
     expectedErrors := Some AuthenticationErrors;
     trackLFSProgress := Some true;
     processCallback :=
       Some {| parser := CheckoutProgressParser;
               onProgress :=
                 onCheckoutProgress callback "checkout" title target |} |}.

Definition checkoutOptions (repository : Repository)
    (account : option IGitAccount) (progressCallback : option ProgressCallback)
    (title target : string) : IGitExecutionOptions :=
  match progressCallback with
  | Some callback => progressOptions repository account callback title target
  | None => baseOptions repository account
  end.

(** The initial progress event of a checkout. *)
Definition initialProgress (title description target : string)
    : ICheckoutProgress :=
  {| kind := "checkout"; title := title; description := description;
     value := 0; target := target |}.

Definition branchTitle (branch : Branch) : string :=
  ("Checking out branch " ++ name branch)%string.

Definition branchDescription : string :=
  ("Switching to " ++ (if __DARWIN__ then "Branch" else "branch"))%string.

Definition commitTitle : string :=
  ("Checking out " ++ (if __DARWIN__ then "Commit" else "commit"))%string.

(** The argument list after the base arguments, per target. *)
Definition branchArgs (branch : Branch) : list string :=
  match type branch with
  | Remote => [name branch; "-b"; nameWithoutRemote branch]
  | Local => [name branch]
  end
  ++ (if enableRecurseSubmodulesFlag then ["--recurse-submodules"] else [])
  ++ ["--"].

(** The events of a checkout that precede the git invocation. *)
Definition initialEvents (progressCallback : option ProgressCallback)
    (title description target : string) : list Event :=
  match progressCallback with
  | Some callback =>
      [Callback (Invoke callback (initialProgress title description target))]
  | None => []
  end.

(** The events of a checkout that follow the git invocation. *)
Definition streamEvents (progressCallback : option ProgressCallback)
    (title target : string) (args : list string) (cwd : string)
    : list Event :=
  match progressCallback with
  | Some callback =>
      map Callback
        (flat_map (onCheckoutProgress callback "checkout" title target)
           (parse CheckoutProgressParser (spawn_output args cwd)))
  | None => []
  end.

(** The value a call of the caller's function carries. *)
Definition valueOf (i : Invocation) : Q := value (invoked_with i).

(** An argument that git would read as an option. *)
Definition isOption (arg : string) : bool := String.prefix "-" arg.

End Shapes.

(** ** A concrete environment *)

Module Sample.

(** A toy parser: a chunk that reports updated files is a progress line whose
    percentage is read off its length, any other chunk is a raw line. *)
Definition parseChunk (chunk : string) : ParsedLine :=
  if String.prefix "Updating files" chunk
  then ProgressLine (Z.of_nat (String.length chunk) # 100) chunk
  else RawLine chunk.

Definition collaborators (recurse darwin : bool) : Collaborators :=
  {| IGitAccount := string;
     Env := list (string * string);
     Url := option string;
     ErrorTable := list string;
     GitError := nat;
     IGitResult := nat;
     GitProgressParser := unit;
     ProgressCallback := nat;
     gitNetworkArguments := ["-c"; "credential.helper="];
     enableRecurseSubmodulesFlag := recurse;
     __DARWIN__ := darwin;
     shortenSHA := fun s => String.substring 0 9 s;
     AuthenticationErrors := ["Authentication failed"];
     getFallbackUrlForProxyResolve := fun _ _ => None;
     envForRemoteOperation :=
       fun account _ =>
         match account with
         | Some login => [("GIT_USER", login)]
         | None => []
         end;
     CheckoutProgressParser := tt;
     parse := fun _ chunks => map parseChunk chunks;
     spawn_output :=
       fun _ _ => ["Updating files: 1"; "warning: slow"; "Updating files: 100"];
     spawn_exit := fun args _ => if Nat.ltb 8 (List.length args) then inl 128 else inr 0 |}.


(** A local branch whose name reads like an option of git. *)
Definition dashed : Branch :=
  {| name := "--progress"; type := Local;
     nameWithoutRemote := "--progress" |}.

Definition abc123 : CommitOneLine :=
  {| sha := "abc123"; summary := "Initial commit" |}.

Definition repo : Repository := {| path := "/home/me/project" |}.

(** What a parser may make of the output of a checkout of four files. *)
Definition fourFiles : list ParsedLine :=
  [ProgressLine (1 # 4) "Updating files:  25% (1/4)";
   RawLine "warning: slow";
   ProgressLine (3 # 4) "Updating files:  75% (3/4)";
   ProgressLine 1 "Updating files: 100% (4/4), done."].

End Sample.

(** ** Conflicted files *)

Section ConflictedFile.

Context {X : Collaborators}.

(** [ManualConflictResolution] of [models/manual-conflict-resolution] and
    [WorkingDirectoryFileChange] of [models/status] are not among the
    sources: the resolution is known by the text its interpolation in
    [`--${resolution}`] gives, the file by its path. *)
Variable ManualConflictResolution : Type.
Variable resolutionText : ManualConflictResolution -> string.
Variable WorkingDirectoryFileChange : Type.
Variable filePath : WorkingDirectoryFileChange -> string.

Definition checkoutConflictedFile (repository : Repository)
    (file : WorkingDirectoryFileChange)
    (resolution : ManualConflictResolution) : Async unit :=
  git ["checkout"; ("--" ++ resolutionText resolution)%string; "--";
       filePath file]
    (path repository) "checkoutConflictedFile" None ;;;
  ret tt.

End ConflictedFile.

(** The arguments git reads as paths only: those that follow the first
    ["--"] of an argument list. *)
Fixpoint afterSeparator (args : list string) : option (list string) :=
  match args with
  | [] => None
  | arg :: rest =>
      if String.eqb arg "--" then Some rest else afterSeparator rest
  end.

(** * The autocompleting text input

    The second source text of [checkout.ts], the component
    [AutocompletingTextInput]: how a completion is spliced into the text
    ([insertCompletion]), how the range to complete is found
    ([attemptAutocompletion]), how requests that overtake each other are
    settled ([open]) and where the popup is placed
    ([renderAutocompletions]). *)

Module Autocomplete.

(** ** Built-ins of the language *)

(** [s.substr(start, length)] for integers: a negative start counts from the
    end, the length is clamped to what the string has. *)
Definition substr (s : string) (start length : Z) : string :=
  let size := Z.of_nat (String.length s) in
  let intStart :=
    if (start <? 0)%Z then Z.max (size + start) 0 else Z.min start size in
  let intLength := Z.min (Z.max length 0) size in
  let intEnd := Z.min (intStart + intLength) size in
  String.substring (Z.to_nat intStart) (Z.to_nat (intEnd - intStart)) s.

(** [s.substring(start)] for an integer: the start is clamped to the string,
    the end is the end of the string. *)
Definition substring (s : string) (start : Z) : string :=
  let size := Z.of_nat (String.length s) in
  let finalStart := Z.min (Z.max start 0) size in
  String.substring (Z.to_nat finalStart) (Z.to_nat (size - finalStart)) s.

(** ** Data model *)

Record IRange : Type := {
  start : Z;
  length : Z
}.

Inductive Source : Type :=
| mouseclick
| keyboard.

(** The text [insertCompletion] assigns to the element, [newText]. *)
Definition splicedText (originalText : string) (range : IRange)
    (autoCompleteText : string) : string :=
  ((substr originalText 0 (start range - 1) ++ autoCompleteText ++ " ")
   ++ substring originalText (start range + length range))%string.

(** The caret position [insertCompletion] computes, [newCaretPosition]. *)
Definition splicedCaret (originalText : string) (range : IRange)
    (autoCompleteText : string) : Z :=
  Z.of_nat
    (String.length
       (substr originalText 0 (start range - 1) ++ autoCompleteText ++ " ")).

Section Component.

Variable AutocompleteItemType : Type.

(** [IAutocompletionProvider] of [./index] is not among the sources; a
    provider is known by what the component asks of it. [regexGlobal] is the
    [global] flag of [new RegExp(provider.getRegExp())]; [regexExec str n]
    is what the call number [n] of [regex.exec(str)] in the loop returns,
    counted from 0: [None] for [null], otherwise the [lastIndex] of the
    regex after the call and the capture group [result[1]] ([None] when it
    is [undefined]). Nothing makes the calls come to [null]: a global regex
    that matches the empty string returns the same result for ever. *)
Record IAutocompletionProvider : Type := {
  regexGlobal : bool;
  regexExec : string -> nat -> option (Z * option string);
  getAutocompletionItems : string -> list AutocompleteItemType;
  getCompletionText : AutocompleteItemType -> string
}.

Record IAutocompletionState : Type := {
  provider : IAutocompletionProvider;
  items : list AutocompleteItemType;
  range : IRange;
  rangeText : string;
  selectedItem : option AutocompleteItemType;
  selectedRowId : option string;
  itemListRowIdPrefix : string
}.

(** The props the modelled methods read. An optional function is known by
    whether it is supplied; its calls are recorded as effects. *)
Record Props : Type := {
  alwaysAutocomplete : bool;
  autocompleteItemFilter : option (AutocompleteItemType -> bool);
  onValueChanged : bool;
  onAutocompleteItemSelected : bool;
  autocompletionProviders : list IAutocompletionProvider
}.

(** The input or textarea element, as the object the component reads and
    assigns. *)
Record Element : Type := {
  value : string;
  selectionStart : option Z;
  selectionEnd : option Z
}.

(** [element.value = text]: the element takes the text and, when that
    changes its value, the browser moves the caret, where the element has
    one, to the end of the text. *)
Definition assignValue (e : Element) (text : string) : Element :=
  if String.eqb text (value e) then e
  else
    let size := Z.of_nat (String.length text) in
    {| value := text;
       selectionStart := option_map (fun _ => size) (selectionStart e);
       selectionEnd := option_map (fun _ => size) (selectionEnd e) |}.

(** What the component does to its surroundings. *)
Inductive Effect : Type :=
| ValueChanged (text : string)
| ItemSelected (item : AutocompleteItemType)
| FocusLater (newCaretPosition : Z)
| Warn (message : string).

(** The instance: its props, its fields and its React state. *)
Record Component : Type := {
  props : Props;
  element : option Element;
  autocompletionRequestID : Z;
  shouldForceAriaLiveMessage : bool;
  autocompletionState : option IAutocompletionState;
  effects : list Effect
}.

Definition setElement (c : Component) (e : option Element) : Component :=
  {| props := props c; element := e;
     autocompletionRequestID := autocompletionRequestID c;
     shouldForceAriaLiveMessage := shouldForceAriaLiveMessage c;
     autocompletionState := autocompletionState c;
     effects := effects c |}.

Definition setRequestID (c : Component) (id : Z) : Component :=
  {| props := props c; element := element c;
     autocompletionRequestID := id;
     shouldForceAriaLiveMessage := shouldForceAriaLiveMessage c;
     autocompletionState := autocompletionState c;
     effects := effects c |}.

Definition setShouldForce (c : Component) (b : bool) : Component :=
  {| props := props c; element := element c;
     autocompletionRequestID := autocompletionRequestID c;
     shouldForceAriaLiveMessage := b;
     autocompletionState := autocompletionState c;
     effects := effects c |}.

(** React renders the component anew when its state is set; the model
    renders at once. Of a render it keeps what [renderAutocompletions] does
    to the instance: when there is a state with items it gets to read
    [shouldForceAriaLiveMessage], and resets it. *)
Definition render (c : Component) : Component :=
  match autocompletionState c with
  | Some state =>
      match items state with
      | [] => c
      | _ :: _ => setShouldForce c false
      end
  | None => c
  end.

(** [this.setState({ autocompletionState })] *)
Definition setState (c : Component) (s : option IAutocompletionState)
    : Component :=
  render
    {| props := props c; element := element c;
       autocompletionRequestID := autocompletionRequestID c;
       shouldForceAriaLiveMessage := shouldForceAriaLiveMessage c;
       autocompletionState := s;
       effects := effects c |}.

Definition perform (c : Component) (e : Effect) : Component :=
  {| props := props c; element := element c;
     autocompletionRequestID := autocompletionRequestID c;
     shouldForceAriaLiveMessage := shouldForceAriaLiveMessage c;
     autocompletionState := autocompletionState c;
     effects := effects c ++ [e] |}.

(** ** Methods *)

Definition close (c : Component) : Component := setState c None.

Definition setCursorPosition (c : Component) (newCaretPosition : Z)
    : Component :=
  match element c with
  | None => perform c (Warn "Unable to set cursor position when element is null")
  | Some e =>
      setElement c
        (Some {| value := value e;
                 selectionStart := Some newCaretPosition;
                 selectionEnd := Some newCaretPosition |})
  end.

(** What [attemptAutocompletion] ends with: the error [fatalError] throws, or
    the state it resolves with ([None] for [null]). *)
Inductive Attempt : Type :=
| Fatal
| Resolved (state : option IAutocompletionState).

(** The loop [while ((result = regex.exec(str)))] of one provider, from the
    call number [n] on: [Some None] when a call returns [null], the [index]
    and [text] of the first result that ends at the caret, or of the first
    result at all when the input always completes, and [None] as long as
    the loop has not ended after [fuel] calls. *)
Fixpoint firstCompletable (fuel : nat) (always : bool) (caretPosition : Z)
    (exec : nat -> option (Z * option string)) (n : nat)
    : option (option (Z * string)) :=
  match fuel with
  | O => None
  | S fuel =>
      match exec n with
      | None => Some None
      | Some (index, group) =>
          let text := match group with Some t => t | None => "" end in
          if (index =? caretPosition)%Z || always
          then Some (Some (index, text))
          else firstCompletable fuel always caretPosition exec (S n)
      end
  end.

(** The loop over the providers; [None] as long as the loop of a provider
    has not ended. [prefix] is what [buildAutocompleteListRowIdPrefix] makes
    of the clock. *)
Fixpoint attemptProviders (fuel : nat) (p : Props) (str : string)
    (caretPosition : Z) (prefix : string)
    (providers : list IAutocompletionProvider) : option Attempt :=
  match providers with
  | [] => Some (Resolved None)
  | provider :: rest =>
      if negb (regexGlobal provider) then Some Fatal
      else
        match firstCompletable fuel (alwaysAutocomplete p) caretPosition
                (regexExec provider str) 0 with
        | None => None
        | Some (Some (index, text)) =>
            let range :=
              {| start := index - Z.of_nat (String.length text);
                 length := Z.of_nat (String.length text) |} in
            let items := getAutocompletionItems provider text in
            let items :=
              match autocompleteItemFilter p with
              | Some keep => filter keep items
              | None => items
              end in
            Some
              (Resolved
                 (Some {| provider := provider; items := items;
                          range := range; rangeText := text;
                          selectedItem := None; selectedRowId := None;
                          itemListRowIdPrefix := prefix |}))
        | Some None =>
            attemptProviders fuel p str caretPosition prefix rest
        end
  end.

(** [attemptAutocompletion]: what it ends with, or [None] when it has not
    returned after [fuel] calls of a regex. *)
Definition attemptAutocompletion (fuel : nat) (c : Component) (str : string)
    (caretPosition : Z) (prefix : string) : option Attempt :=
  attemptProviders fuel (props c) str caretPosition prefix
    (autocompletionProviders (props c)).

(** A result of [regex.exec] that the loop of a provider passes over: the
    input does not always complete and the result does not end at the
    caret. *)
Definition passedOver (always : bool) (caretPosition : Z)
    (result : Z * option string) : Prop :=
  always = false /\ fst result <> caretPosition.

(** The calls from number [m] up to number [n], that one left out, all
    return a result, and the loop passes over each. *)
Definition passedOverBetween (always : bool) (caretPosition : Z)
    (exec : nat -> option (Z * option string)) (m n : nat) : Prop :=
  forall k, m <= k < n ->
    exists result, exec k = Some result
                   /\ passedOver always caretPosition result.

(** A provider the loop over the providers passes over: its regex is
    global, and after some calls whose results the loop passes over a call
    returns [null]. *)
Definition providerPassedOver (always : bool) (str : string)
    (caretPosition : Z) (provider : IAutocompletionProvider) : Prop :=
  regexGlobal provider = true
  /\ exists n,
       passedOverBetween always caretPosition (regexExec provider str) 0 n
       /\ regexExec provider str n = None.

(** A provider the loop over the providers never leaves: its regex is
    global, no call returns [null] and the loop passes over every result. *)
Definition providerNeverLeft (always : bool) (str : string)
    (caretPosition : Z) (provider : IAutocompletionProvider) : Prop :=
  regexGlobal provider = true
  /\ forall n,
       passedOverBetween always caretPosition (regexExec provider str) 0 n.

(** The state [attemptAutocompletion] returns for a provider and a result
    with its [index] and [text]. *)
Definition stateOf (p : Props) (prefix : string)
    (provider : IAutocompletionProvider) (index : Z) (text : string)
    : IAutocompletionState :=
  {| provider := provider;
     items := match autocompleteItemFilter p with
              | Some keep =>
                  filter keep (getAutocompletionItems provider text)
              | None => getAutocompletionItems provider text
              end;
     range := {| start := index - Z.of_nat (String.length text);
                 length := Z.of_nat (String.length text) |};
     rangeText := text;
     selectedItem := None;
     selectedRowId := None;
     itemListRowIdPrefix := prefix |}.

(** [open], up to its [await]: the request it starts, if any, with the
    identifier, the text and the caret position it holds on to. *)
Definition openBegin (c : Component) (str : string)
    : Component * option (Z * string * Z) :=
  match element c with
  | None => (c, None)
  | Some e =>
      match selectionStart e with
      | None => (c, None)
      | Some caretPosition =>
          let requestID := (autocompletionRequestID c + 1)%Z in
          (setRequestID c requestID, Some (requestID, str, caretPosition))
      end
  end.

(** [open], from its [await] on, for the request [requestID]. *)
Definition openEnd (c : Component) (requestID : Z) (attempt : Attempt)
    : Component :=
  match attempt with
  | Fatal => c
  | Resolved autocompletionState =>
      if negb (requestID =? autocompletionRequestID c)%Z then c
      else setState (setShouldForce c true) autocompletionState
  end.

(** [open] when nothing happens between its two halves; [None] when
    [attemptAutocompletion] has not returned after [fuel] calls of a
    regex. *)
Definition open (fuel : nat) (c : Component) (str prefix : string)
    : option Component :=
  match openBegin c str with
  | (c', Some (requestID, str', caretPosition)) =>
      option_map (openEnd c' requestID)
        (attemptAutocompletion fuel c' str' caretPosition prefix)
  | (c', None) => Some c'
  end.

(** [insertCompletion]: [None] when the element or the state it asserts to
    be there is [null]; otherwise the component after it and the request the
    [open] it ends with has started, if any. *)
Definition insertCompletion (c : Component) (item : AutocompleteItemType)
    (source : Source) : option (Component * option (Z * string * Z)) :=
  match element c, autocompletionState c with
  | Some e, Some state =>
      let originalText := value e in
      let range := range state in
      let autoCompleteText := getCompletionText (provider state) item in
      let textWithAutoCompleteText :=
        (substr originalText 0 (start range - 1) ++ autoCompleteText
         ++ " ")%string in
      let newText :=
        (textWithAutoCompleteText
         ++ substring originalText (start range + length range))%string in
      let c := setElement c (Some (assignValue e newText)) in
      let c := if onValueChanged (props c)
               then perform c (ValueChanged newText) else c in
      let newCaretPosition :=
        Z.of_nat (String.length textWithAutoCompleteText) in
      let c := match source with
               | mouseclick => perform c (FocusLater newCaretPosition)
               | keyboard => setCursorPosition c newCaretPosition
               end in
      let c := if onAutocompleteItemSelected (props c)
               then perform c (ItemSelected item) else c in
      let c := close c in
      if alwaysAutocomplete (props c)
      then Some (openBegin c "")
      else Some (c, None)
  | _, _ => None
  end.

(** ** Requests in flight *)

(** What can happen to a component while requests are in flight: [open] is
    called, or the request with some identifier comes back. *)
Inductive Step : Type :=
| Begin (str : string)
| End (requestID : Z) (attempt : Attempt).

Definition step (c : Component) (s : Step) : Component :=
  match s with
  | Begin str => fst (openBegin c str)
  | End requestID attempt => openEnd c requestID attempt
  end.

Definition run (c : Component) (schedule : list Step) : Component :=
  fold_left step schedule c.

(** A step that is the return of a request with an identifier below [k],
    that is, of a request started before the request [k]. *)
Definition olderThan (k : Z) (s : Step) : Prop :=
  match s with
  | Begin _ => False
  | End requestID _ => (requestID < k)%Z
  end.

End Component.

Arguments ValueChanged {AutocompleteItemType} text.
Arguments FocusLater {AutocompleteItemType} newCaretPosition.
Arguments Warn {AutocompleteItemType} message.
Arguments Fatal {AutocompleteItemType}.
Arguments Begin {AutocompleteItemType} str.

(** ** The placement of the popup *)

Definition RowHeight : Q := 29.
Definition YOffset : Q := 20.
Definition DefaultPopupHeight : Q := 100.

(** [x < y] on numbers. *)
Definition Qltb (x y : Q) : bool := negb (Qle_bool y x).

(** The [style] of the popup; numbers are rationals. *)
Record PopupStyle : Type := {
  top : option Q;
  bottom : option Q;
  left : Q;
  height : Q
}.

(** The part of [renderAutocompletions] that computes the style, from the
    coordinates of the caret ([getCaretCoordinates]), the scroll offsets of
    the element, the top of its bounding rectangle, the inner height of its
    window ([None] when it has no document or window) and the number of
    items; [None] when it renders nothing. *)
Definition popupStyle (caretTop caretLeft scrollTop scrollLeft rectTop : Q)
    (innerHeight : option Q) (itemCount : nat) : option PopupStyle :=
  match itemCount with
  | O => None
  | _ =>
      let coordinatesTop := (caretTop - scrollTop)%Q in
      let coordinatesLeft := (caretLeft - scrollLeft)%Q in
      let left := coordinatesLeft in
      let top := (coordinatesTop + YOffset)%Q in
      let bottom := (coordinatesTop + YOffset + 1)%Q in
      let popupAbsoluteTop := (rectTop + coordinatesTop)%Q in
      let (maxHeight, belowElement) :=
        match innerHeight with
        | Some windowHeight =>
            let spaceToBottomOfWindow :=
              (windowHeight - popupAbsoluteTop - YOffset)%Q in
            if Qltb spaceToBottomOfWindow DefaultPopupHeight
               && Qle_bool DefaultPopupHeight popupAbsoluteTop
            then (DefaultPopupHeight, false)
            else (Qmin DefaultPopupHeight spaceToBottomOfWindow, true)
        | None => (DefaultPopupHeight, true)
        end in
      let noOverflowItemHeight :=
        (RowHeight * inject_Z (Z.of_nat itemCount))%Q in
      let height := Qmin noOverflowItemHeight maxHeight in
      Some (if belowElement
            then {| top := Some top; bottom := None; left := left;
                    height := height |}
            else {| top := None; bottom := Some bottom; left := left;
                    height := height |})
  end.

End Autocomplete.

(** * The packaging script

    A shallow embedding of [script/package.ts]. The script runs in a small
    trace-and-stop monad ([Script]): a run yields the ordered list of what
    it did to the console, the file system and its child processes, and how
    it ended. The callbacks of the promise [createWindowsInstaller]
    returns run once the synchronous code of the script is over. *)

Module Package.

(** The double quote character. *)
Definition quote : string := String (Ascii.ascii_of_nat 34) "".

(** [electronInstaller.Options], the fields the script sets; an optional
    field that is not set is [None]. *)
Record Options : Type := {
  name : string;
  appDirectory : string;
  outputDirectory : string;
  authors : string;
  iconUrl : string;
  setupIcon : string;
  loadingGif : string;
  exe : string;
  title : string;
  setupExe : string;
  setupMsi : string;
  remoteReleases : option string;
  signWithParams : option string
}.

(** What the script does to its surroundings: the calls it makes, each
    recorded when it is made, whether it returns or throws. *)
Inductive Event : Type :=
| ConsoleLog (message : string)
| ConsoleError (message : string)
| RmSync (path : string)
| ExecSync (command : string)
| WriteFileSync (path data : string)
| CreateWindowsInstaller (options : Options)
| Rename (from to : string).

(** How a run ends: the script ran to its end, it called [process.exit],
    or an exception nothing catches ended it. *)
Inductive Ending : Type :=
| Finished
| Exit (code : Z)
| Uncaught.

(** What the script imports or asks of the platform, and how the world
    answers it. *)
Class Environment : Type := {
  Err : Type;
  (** [process.platform], [__dirname], [process.env.WINDOWS_CERT_PASSWORD] *)
  platform : string;
  dirname : string;
  WINDOWS_CERT_PASSWORD : option string;
  (** [./dist-info], [../app/package-info], [./build-platforms] *)
  getDistPath : string;
  getOSXZipPath : string;
  getWindowsIdentifierName : string;
  getWindowsStandaloneName : string;
  getWindowsInstallerName : string;
  shouldMakeDelta : bool;
  getUpdatesURL : string;
  getIconFileName : string;
  isPublishable : bool;
  getDistRoot : string;
  getDistArchitecture : string;
  getProductName : string;
  getCompanyName : string;
  getVersion : string;
  isGitHubActions : bool;
  (** [JSON.stringify(getBundleSizes())] *)
  bundleSizes : string;
  (** [path.join], [path.resolve] *)
  join : list string -> string;
  resolve : list string -> string;
  (** [new URL(url)] with the search parameter set, as a string; [None] when
      the constructor throws *)
  urlWithSearchParam : string -> string -> string -> option string;
  (** the text of an error in a template *)
  errorText : Err -> string;
  (** the world: whether a path exists, whether a synchronous call throws,
      the error an asynchronous call rejects with *)
  existsSync : string -> bool;
  rmSyncThrows : string -> bool;
  execSyncThrows : string -> bool;
  writeFileSyncThrows : string -> bool;
  installerRejects : Options -> option Err;
  renameRejects : string -> string -> option Err
}.

Section Script_.

Definition Script (A : Type) : Type := (list Event * (Ending + A))%type.

Definition pure (A : Type) (a : A) : Script A := ([], inr a).

Definition stop (A : Type) (e : Ending) : Script A := ([], inl e).

Definition andThen (A B : Type) (m : Script A) (k : A -> Script B)
    : Script B :=
  match m with
  | (t, inl e) => (t, inl e)
  | (t, inr a) => let (t', r) := k a in (t ++ t', r)
  end.

Definition does (e : Event) : Script unit := ([e], inr tt).

(** A synchronous call that may throw. *)
Definition call (e : Event) (throws : bool) : Script unit :=
  if throws then ([e], inl Uncaught) else ([e], inr tt).

(** [process.exit(code)] *)
Definition exit (A : Type) (code : Z) : Script A := stop A (Exit code).

End Script_.

Arguments pure {A} a.
Arguments stop {A} e.
Arguments exit {A} code.
Arguments andThen {A B} m k.

Notation "x <-- m ;; k" := (andThen m (fun x => k))
  (at level 61, m at next level, right associativity).
Notation "m ;;. k" := (andThen m (fun _ => k))
  (at level 61, right associativity).

Section Program.

Context {E : Environment}.

Definition distPath : string := getDistPath.
Definition productName : string := getProductName.
Definition outputDir : string := getDistRoot.

(** The command [packageOSX] runs for a destination. *)
Definition dittoCommand (dest : string) : string :=
  ("ditto -ck --keepParent " ++ quote ++ distPath ++ "/" ++ productName
   ++ ".app" ++ quote ++ " " ++ quote ++ dest ++ quote)%string.

Definition packageOSX : Script unit :=
  let dest := getOSXZipPath in
  call (RmSync dest) (rmSyncThrows dest) ;;.
  does (ConsoleLog "Packaging for macOS…") ;;.
  call (ExecSync (dittoCommand dest)) (execSyncThrows (dittoCommand dest)).

(** The file names of the nuget packages of one kind, before and after the
    renaming. *)
Definition nupkgFrom (prefix kind : string) : string :=
  (prefix ++ "-" ++ kind ++ ".nupkg")%string.

Definition nupkgTo (prefix arch kind : string) : string :=
  (prefix ++ "-" ++ arch ++ "-" ++ kind ++ ".nupkg")%string.

(** The loop [for (const kind of ...)] of the renaming callback. *)
Fixpoint renameAll (prefix arch : string) (kinds : list string)
    : Script unit :=
  match kinds with
  | [] => pure tt
  | kind :: rest =>
      let from := join [outputDir; nupkgFrom prefix kind] in
      let to := join [outputDir; nupkgTo prefix arch kind] in
      does (ConsoleLog ("Renaming " ++ from ++ " to " ++ to)%string) ;;.
      does (Rename from to) ;;.
      match renameRejects from to with
      | Some e =>
          does (ConsoleError ("Error packaging: " ++ errorText e)%string) ;;.
          exit 1
      | None => renameAll prefix arch rest
      end
  end.

(** The callbacks chained on the promise of [createWindowsInstaller]. *)
Definition installerSettled (options : Options) : Script unit :=
  match installerRejects options with
  | Some e =>
      does (ConsoleError ("Error packaging: " ++ errorText e)%string) ;;.
      exit 1
  | None =>
      does (ConsoleLog ("Installers created in " ++ outputDir)%string) ;;.
      let arch := getDistArchitecture in
      let prefix := (getWindowsIdentifierName ++ "-" ++ getVersion)%string in
      renameAll prefix arch
        (if shouldMakeDelta then ["full"; "delta"] else ["full"])
  end.

(** The locals of [packageWindows]. *)
Definition iconSource : string :=
  join [dirname; ".."; "app"; "static"; "logos";
        (getIconFileName ++ ".ico")%string].

Definition splashScreenPath : string :=
  resolve [dirname; "../app/static/logos/win32-installer-splash.gif"].

Definition iconUrlOfApp : string :=
  "https://desktop.githubusercontent.com/github-desktop/app-icon.ico".

Definition nugetPkgName : string := getWindowsIdentifierName.

(** The options once both [if]s of [packageWindows] are through, for the
    remote releases the first one has set, if any. *)
Definition windowsOptions (remote : option string) : Options :=
  {| name := nugetPkgName;
     appDirectory := distPath;
     outputDirectory := outputDir;
     authors := getCompanyName;
     iconUrl := iconUrlOfApp;
     setupIcon := iconSource;
     loadingGif := splashScreenPath;
     exe := (nugetPkgName ++ ".exe")%string;
     title := productName;
     setupExe := getWindowsStandaloneName;
     setupMsi := getWindowsInstallerName;
     remoteReleases := remote;
     signWithParams :=
       if isGitHubActions && isPublishable
       then
         let certificatePath := join [dirname; "windows-certificate.pfx"] in
         Some ("/f " ++ certificatePath ++ " /p "
               ++ match WINDOWS_CERT_PASSWORD with
                  | Some password => password
                  | None => "undefined"
                  end
               ++ " /tr http://timestamp.digicert.com /td sha256 /fd sha256")%string
       else None |}.

(** [packageWindows] up to the call of [createWindowsInstaller]; it gives
    the options the installer was started with. *)
Definition packageWindows : Script Options :=
  (if negb (existsSync iconSource)
   then
     does (ConsoleError
             ("expected setup icon not found at location: "
              ++ iconSource)%string) ;;.
     exit 1
   else pure tt) ;;.
  (if negb (existsSync splashScreenPath)
   then
     does (ConsoleError
             ("expected setup splash screen gif not found at location: "
              ++ splashScreenPath)%string) ;;.
     exit 1
   else pure tt) ;;.
  remote <-- (if shouldMakeDelta
              then
                match urlWithSearchParam getUpdatesURL
                        "bypassStaggeredRelease" "1" with
                | Some url => pure (Some url)
                | None => stop Uncaught
                end
              else pure None) ;;
  let options := windowsOptions remote in
  does (ConsoleLog "Packaging for Windows…") ;;.
  does (CreateWindowsInstaller options) ;;.
  pure options.

(** The script: its synchronous code, then the callbacks of the promise it
    left behind, if any. *)
Definition main : Script unit :=
  pending <-- (if String.eqb platform "darwin"
               then packageOSX ;;. pure None
               else if String.eqb platform "win32"
               then options <-- packageWindows ;; pure (Some options)
               else
                 does (ConsoleError
                         ("I don't know how to package for " ++ platform
                          ++ " :(")%string) ;;.
                 exit 1) ;;
  does (ConsoleLog "Writing bundle size info…") ;;.
  let file := join [getDistRoot; "bundle-size.json"] in
  call (WriteFileSync file bundleSizes) (writeFileSyncThrows file) ;;.
  match pending with
  | Some options => installerSettled options
  | None => pure tt
  end.

(** ** Reading a run *)

Definition isWrite (e : Event) : bool :=
  match e with WriteFileSync _ _ => true | _ => false end.

Definition isRename (e : Event) : bool :=
  match e with Rename _ _ => true | _ => false end.

Definition isPackaging (e : Event) : bool :=
  match e with
  | RmSync _ | ExecSync _ | CreateWindowsInstaller _ => true
  | _ => false
  end.

(** The file the script writes the bundle sizes to. *)
Definition bundleSizeFile : string := join [getDistRoot; "bundle-size.json"].

(** The renaming of the packages of one kind. *)
Definition renaming (kind : string) : string * string :=
  let prefix := (getWindowsIdentifierName ++ "-" ++ getVersion)%string in
  (join [outputDir; nupkgFrom prefix kind],
   join [outputDir; nupkgTo prefix getDistArchitecture kind]).

(** What one passage of the renaming loop does when the renaming goes
    through. *)
Definition renamingEvents (kind : string) : list Event :=
  [ConsoleLog ("Renaming " ++ fst (renaming kind) ++ " to "
               ++ snd (renaming kind))%string;
   Rename (fst (renaming kind)) (snd (renaming kind))].

(** The kinds of packages there are. *)
Definition kinds : list string :=
  if shouldMakeDelta then ["full"; "delta"] else ["full"].

(** The first events of a run on Windows that gets to write the bundle
    sizes. *)
Definition windowsPrelude (remote : option string) : list Event :=
  [ConsoleLog "Packaging for Windows…";
   CreateWindowsInstaller (windowsOptions remote);
   ConsoleLog "Writing bundle size info…";
   WriteFileSync bundleSizeFile bundleSizes].

(** The renamings of a run, in order. *)
Definition renames (t : list Event) : list (string * string) :=
  flat_map (fun e => match e with
                     | Rename from to => [(from, to)]
                     | _ => []
                     end) t.

End Program.

End Package.

(** * Concrete inputs for the component and the script *)

Module AutocompleteSample.

Import Autocomplete.

(** A provider of user mentions: in [hi @jo there] its regex has one result,
    which ends behind [@jo] and captures [jo], and the next call returns
    [null]. *)
Definition mentions : IAutocompletionProvider string :=
  {| regexGlobal := true;
     regexExec :=
       fun str n =>
         match n with
         | O => if String.eqb str "hi @jo there"
                then Some (6%Z, Some "jo") else None
         | S _ => None
         end;
     getAutocompletionItems :=
       fun text => filter (String.prefix text) ["john"; "joan"; "zed"];
     getCompletionText := fun item => ("@" ++ item)%string |}.

Definition props (always : bool) : Props string :=
  {| alwaysAutocomplete := always;
     autocompleteItemFilter := Some (fun item => negb (String.eqb item "joan"));
     onValueChanged := true;
     onAutocompleteItemSelected := true;
     autocompletionProviders := [mentions] |}.

Definition input : Element :=
  {| value := "hi @jo there";
     selectionStart := Some 6%Z;
     selectionEnd := Some 6%Z |}.

(** The state of the popup for [jo] in [hi @jo there]. *)
Definition popup : IAutocompletionState string :=
  {| provider := mentions;
     items := ["john"];
     range := {| start := 4; length := 2 |};
     rangeText := "jo";
     selectedItem := None;
     selectedRowId := None;
     itemListRowIdPrefix := "1700000000000" |}.

(** The state of a popup for [jo] at the very start of [jo there]. *)
Definition popupAtStart : IAutocompletionState string :=
  {| provider := mentions;
     items := ["john"];
     range := {| start := 0; length := 2 |};
     rangeText := "jo";
     selectedItem := None;
     selectedRowId := None;
     itemListRowIdPrefix := "1700000000000" |}.

Definition component (always : bool) (e : Element)
    (state : option (IAutocompletionState string)) : Component string :=
  {| Autocomplete.props := props always;
     element := Some e;
     autocompletionRequestID := 0;
     shouldForceAriaLiveMessage := false;
     autocompletionState := state;
     effects := [] |}.

(** The character [@]. *)
Definition atSign : Ascii.ascii := Ascii.ascii_of_nat 64.

Definition opened : Component string := component false input (Some popup).

Definition closed : Component string := component false input None.

Definition always : Component string := component true input None.

(** A provider whose regex matches the empty string at the start of every
    text, as [/()/g] does: every call of [exec] returns that match and
    leaves [lastIndex] at 0. *)
Definition blanks : IAutocompletionProvider string :=
  {| regexGlobal := true;
     regexExec := fun _ _ => Some (0%Z, Some "");
     getAutocompletionItems := fun _ => [];
     getCompletionText := fun item => item |}.

(** A component that asks [blanks] before [mentions]. *)
Definition stuck : Component string :=
  {| Autocomplete.props :=
       {| alwaysAutocomplete := false;
          autocompleteItemFilter := None;
          onValueChanged := true;
          onAutocompleteItemSelected := true;
          autocompletionProviders := [blanks; mentions] |};
     element := Some input;
     autocompletionRequestID := 0;
     shouldForceAriaLiveMessage := false;
     autocompletionState := None;
     effects := [] |}.

End AutocompleteSample.

Module PackageSample.

Import Package.

(** A world in which every file the script looks for is there or not, every
    renaming is rejected or not, and nothing else fails. *)
Definition environment (os : string) (assets renameFails : bool)
    : Environment :=
  {| Err := string;
     platform := os;
     dirname := "/repo/script";
     WINDOWS_CERT_PASSWORD := None;
     getDistPath := "/repo/dist/App-win32-x64";
     getOSXZipPath := "/repo/dist/App-x64.zip";
     getWindowsIdentifierName := "App";
     getWindowsStandaloneName := "AppSetup-x64";
     getWindowsInstallerName := "AppSetup-x64";
     shouldMakeDelta := true;
     getUpdatesURL := "https://updates.example";
     getIconFileName := "icon-logo";
     isPublishable := false;
     getDistRoot := "/repo/dist";
     getDistArchitecture := "x64";
     getProductName := "App";
     getCompanyName := "Example, Inc.";
     getVersion := "3.0.0";
     isGitHubActions := false;
     bundleSizes := "{}";
     join := String.concat "/";
     resolve := String.concat "/";
     urlWithSearchParam :=
       fun url key v => Some (url ++ "/?" ++ key ++ "=" ++ v)%string;
     errorText := fun e => e;
     existsSync := fun _ => assets;
     rmSyncThrows := fun _ => false;
     execSyncThrows := fun _ => false;
     writeFileSyncThrows := fun _ => false;
     installerRejects := fun _ => None;
     renameRejects :=
       fun _ _ => if renameFails then Some "EPERM" else None |}.

End PackageSample.

Module ConflictSample.

(** A resolution is ours or theirs; a file is known by its path. *)
Definition resolutionText (ours : bool) : string :=
  if ours then "ours" else "theirs".

Definition filePath (file : string) : string := file.

End ConflictSample.

(** * Properties *)

Section Runs.

Context {X : Collaborators}.

(** ** What each operation does, in full *)

Lemma getBranchCheckoutArgs_run (branch : Branch) :
  getBranchCheckoutArgs branch = ret (branchArgs branch).
Proof.
  unfold getBranchCheckoutArgs, branchArgs.
  destruct enableRecurseSubmodulesFlag, (type branch); reflexivity.
Qed.

Lemma getCheckoutArgs_shape (progressCallback : option ProgressCallback) :
  getCheckoutArgs progressCallback =
  gitNetworkArguments
  ++ "checkout" :: match progressCallback with
                   | Some _ => ["--progress"]
                   | None => []
                   end.
Proof. destruct progressCallback; reflexivity. Qed.

Lemma getCheckoutOpts_run (repository : Repository)
    (account : option IGitAccount) (title target : string)
    (progressCallback : option ProgressCallback)
    (initialDescription : option string) :
  getCheckoutOpts repository account title target progressCallback
    initialDescription =
  (initialEvents progressCallback title
     (match initialDescription with Some d => d | None => title end) target,
   inr (checkoutOptions repository account progressCallback title target)).
Proof. destruct progressCallback; reflexivity. Qed.

Lemma git_run (args : list string) (cwd operation : string)
    (options : IGitExecutionOptions) :
  git args cwd operation (Some options) =
  (Git args cwd operation (Some options)
   :: match processCallback options with
      | Some pc =>
          map Callback
            (flat_map (onProgress pc)
               (parse (parser pc) (spawn_output args cwd)))
      | None => []
      end,
   spawn_exit args cwd).
Proof.
  unfold git, emit, bind, ret, reject.
  destruct (spawn_exit args cwd); rewrite app_nil_r; reflexivity.
Qed.

Lemma checkoutBranch_run (repository : Repository)
    (account : option IGitAccount) (branch : Branch)
    (progressCallback : option ProgressCallback) :
  let args := getCheckoutArgs progressCallback ++ branchArgs branch in
  checkoutBranch repository account branch progressCallback =
  (initialEvents progressCallback (branchTitle branch) branchDescription
     (name branch)
   ++ Git args (path repository) "checkoutBranch"
        (Some (checkoutOptions repository account progressCallback
                 (branchTitle branch) (name branch)))
      :: streamEvents progressCallback (branchTitle branch) (name branch)
           args (path repository),
   match spawn_exit args (path repository) with
   | inl e => inl e
   | inr _ => inr true
   end).
Proof.
  intros args. unfold checkoutBranch.
  rewrite getCheckoutOpts_run, getBranchCheckoutArgs_run.
  unfold bind at 1. unfold bind at 1. unfold ret at 1. cbn iota beta.
  rewrite git_run. fold args. unfold bind, ret. cbn iota beta.
  destruct progressCallback as [callback|];
    destruct (spawn_exit args (path repository));
    cbn; rewrite ?app_nil_r; reflexivity.
Qed.

Lemma checkoutCommit_run (repository : Repository)
    (account : option IGitAccount) (commit : CommitOneLine)
    (progressCallback : option ProgressCallback) :
  let args := getCheckoutArgs progressCallback ++ [sha commit] in
  checkoutCommit repository account commit progressCallback =
  (initialEvents progressCallback commitTitle commitTitle
     (shortenSHA (sha commit))
   ++ Git args (path repository) "checkoutCommit"
        (Some (checkoutOptions repository account progressCallback
                 commitTitle (shortenSHA (sha commit))))
      :: streamEvents progressCallback commitTitle (shortenSHA (sha commit))
           args (path repository),
   match spawn_exit args (path repository) with
   | inl e => inl e
   | inr _ => inr true
   end).
Proof.
  intros args. unfold checkoutCommit.
  rewrite getCheckoutOpts_run.
  unfold bind at 1. cbn iota beta.
  rewrite git_run. fold args. unfold bind, ret. cbn iota beta.
  destruct progressCallback as [callback|];
    destruct (spawn_exit args (path repository));
    cbn; rewrite ?app_nil_r; reflexivity.
Qed.

Lemma checkoutPaths_run (repository : Repository) (paths : list string) :
  let args := "checkout" :: "HEAD" :: "--" :: paths in
  checkoutPaths repository paths =
  ([Git args (path repository) "checkoutPaths" None],
   match spawn_exit args (path repository) with
   | inl e => inl e
   | inr _ => inr tt
   end).
Proof.
  intros args. unfold checkoutPaths, git, emit, bind, ret, reject.
  fold args. destruct (spawn_exit args (path repository)); reflexivity.
Qed.

(** ** Reading traces *)

Lemma gitCalls_app (t1 t2 : list Event) :
  gitCalls (t1 ++ t2) = gitCalls t1 ++ gitCalls t2.
Proof. apply flat_map_app. Qed.

Lemma gitCalls_git (args : list string) (cwd operation : string)
    (options : option IGitExecutionOptions) (t : list Event) :
  gitCalls (Git args cwd operation options :: t)
  = (args, cwd, operation, options) :: gitCalls t.
Proof. reflexivity. Qed.

Lemma gitCalls_callbacks (calls : list Invocation) :
  gitCalls (map Callback calls) = [].
Proof. induction calls as [|i calls IH]; [reflexivity | exact IH]. Qed.

Lemma callbackCalls_callbacks (calls : list Invocation) :
  callbackCalls (map Callback calls) = calls.
Proof.
  induction calls as [|i calls IH]; [reflexivity | cbn; f_equal; exact IH].
Qed.

Lemma gitCalls_initialEvents (progressCallback : option ProgressCallback)
    (title description target : string) :
  gitCalls (initialEvents progressCallback title description target) = [].
Proof. destruct progressCallback; reflexivity. Qed.

Lemma gitCalls_streamEvents (progressCallback : option ProgressCallback)
    (title target : string) (args : list string) (cwd : string) :
  gitCalls (streamEvents progressCallback title target args cwd) = [].
Proof.
  destruct progressCallback; [apply gitCalls_callbacks | reflexivity].
Qed.

Lemma checkoutBranch_gitCalls (repository : Repository)
    (account : option IGitAccount) (branch : Branch)
    (progressCallback : option ProgressCallback) :
  gitCalls (trace (checkoutBranch repository account branch progressCallback))
  = [(getCheckoutArgs progressCallback ++ branchArgs branch,
      path repository, "checkoutBranch",
      Some (checkoutOptions repository account progressCallback
              (branchTitle branch) (name branch)))].
Proof.
  rewrite checkoutBranch_run. unfold trace, fst.
  rewrite gitCalls_app, gitCalls_initialEvents, gitCalls_git.
  now rewrite gitCalls_streamEvents.
Qed.

Lemma checkoutCommit_gitCalls (repository : Repository)
    (account : option IGitAccount) (commit : CommitOneLine)
    (progressCallback : option ProgressCallback) :
  gitCalls (trace (checkoutCommit repository account commit progressCallback))
  = [(getCheckoutArgs progressCallback ++ [sha commit],
      path repository, "checkoutCommit",
      Some (checkoutOptions repository account progressCallback
              commitTitle (shortenSHA (sha commit))))].
Proof.
  rewrite checkoutCommit_run. unfold trace, fst.
  rewrite gitCalls_app, gitCalls_initialEvents, gitCalls_git.
  now rewrite gitCalls_streamEvents.
Qed.

End Runs.

Section ArgumentLists.

Context {X : Collaborators}.

(** ** Argument lists *)

Lemma In_getCheckoutArgs (progressCallback : option ProgressCallback)
    (arg : string) :
  In arg (getCheckoutArgs progressCallback) ->
  In arg gitNetworkArguments \/ arg = "checkout" \/ arg = "--progress".
Proof.
  rewrite getCheckoutArgs_shape. intros H.
  apply in_app_or in H. destruct H as [H | [H | H]].
  - now left.
  - right; left. now symmetry.
  - destruct progressCallback; [|contradiction].
    destruct H as [H | []]. right; right. now symmetry.
Qed.

Lemma checkout_args_split (progressCallback : option ProgressCallback)
    (targetArgs : list string) :
  getCheckoutArgs progressCallback ++ targetArgs =
  gitNetworkArguments
  ++ "checkout" :: (match progressCallback with
                    | Some _ => ["--progress"]
                    | None => []
                    end ++ targetArgs).
Proof.
  rewrite getCheckoutArgs_shape, <- app_assoc. reflexivity.
Qed.

Lemma hd_error_branchArgs (branch : Branch) :
  hd_error (branchArgs branch) = Some (name branch).
Proof. unfold branchArgs. destruct (type branch); reflexivity. Qed.

(** C1. For every branch [getBranchCheckoutArgs] resolves, without any
    event, with the branch name, followed by ["-b"] and the name without the
    remote exactly for a remote-tracking branch, followed by
    ["--recurse-submodules"] exactly when the feature flag is enabled, and
    closed by ["--"]. For the remote-tracking branch [origin/feature-x] that
    is [origin/feature-x; -b; feature-x; --] with the flag off, and with the
    flag on ["--recurse-submodules"] stands right before the final ["--"]. *)
Theorem getBranchCheckoutArgs_shape (branch : Branch) :
  getBranchCheckoutArgs branch =
    ret ((match type branch with
          | Remote => [name branch; "-b"; nameWithoutRemote branch]
          | Local => [name branch]
          end
          ++ (if enableRecurseSubmodulesFlag
              then ["--recurse-submodules"] else []))
         ++ ["--"])
  /\ getBranchCheckoutArgs
       {| name := "origin/feature-x"; type := Remote;
          nameWithoutRemote := "feature-x" |} =
     ret (if enableRecurseSubmodulesFlag
          then ["origin/feature-x"; "-b"; "feature-x";
                "--recurse-submodules"; "--"]
          else ["origin/feature-x"; "-b"; "feature-x"; "--"]).
Proof.
  split.
  - rewrite getBranchCheckoutArgs_run. unfold branchArgs.
    now rewrite app_assoc.
  - unfold getBranchCheckoutArgs.
    destruct enableRecurseSubmodulesFlag; reflexivity.
Qed.

(** C2. For every commit whose SHA is not an option-like string (it does
    not begin with a dash), and network arguments that hold none of ["-b"],
    ["--recurse-submodules"] and ["--"], [checkoutCommit] invokes git once,
    with an argument list whose last element is the SHA and which holds no
    ["-b"], no ["--recurse-submodules"] and no ["--"]. *)
Theorem checkoutCommit_arguments (repository : Repository)
    (account : option IGitAccount) (commit : CommitOneLine)
    (progressCallback : option ProgressCallback) :
  (forall flag, In flag ["-b"; "--recurse-submodules"; "--"] ->
                ~ In flag gitNetworkArguments) ->
  isOption (sha commit) = false ->
  exists args options,
    gitCalls
      (trace (checkoutCommit repository account commit progressCallback))
    = [(args, path repository, "checkoutCommit", options)]
    /\ (exists front, args = front ++ [sha commit])
    /\ last args "" = sha commit
    /\ ~ In "-b" args
    /\ ~ In "--recurse-submodules" args
    /\ ~ In "--" args.
Proof.
  intros Hnet Hsha.
  exists (getCheckoutArgs progressCallback ++ [sha commit]).
  eexists. split; [apply checkoutCommit_gitCalls|].
  split; [now exists (getCheckoutArgs progressCallback)|].
  split; [apply last_last|].
  assert (Hflag : forall flag,
             In flag ["-b"; "--recurse-submodules"; "--"] ->
             ~ In flag (getCheckoutArgs progressCallback ++ [sha commit])).
  { intros flag Hin H. apply in_app_or in H. destruct H as [H | [H | []]].
    - apply In_getCheckoutArgs in H. destruct H as [H | [H | H]].
      + exact (Hnet flag Hin H).
      + subst flag. destruct Hin as [E | [E | [E | []]]]; discriminate E.
      + subst flag. destruct Hin as [E | [E | [E | []]]]; discriminate E.
    - subst flag.
      destruct Hin as [E | [E | [E | []]]];
        rewrite <- E in Hsha; discriminate Hsha. }
  repeat split; apply Hflag; cbn; tauto.
Qed.

(** C6. The argument list [checkoutBranch] and [checkoutCommit] pass to
    git is [gitNetworkArguments()], then ["checkout"], then the rest, and the
    rest begins with ["--progress"] if and only if a progress callback was
    supplied or the name of the branch, for [checkoutBranch], or the SHA of
    the commit, for [checkoutCommit], is itself ["--progress"]. *)
Theorem checkout_base_arguments (repository : Repository)
    (account : option IGitAccount) (branch : Branch) (commit : CommitOneLine)
    (progressCallback : option ProgressCallback) :
  exists branchRest commitRest branchOptions commitOptions,
    gitCalls
      (trace (checkoutBranch repository account branch progressCallback))
    = [(gitNetworkArguments ++ "checkout" :: branchRest, path repository,
        "checkoutBranch", branchOptions)]
    /\ gitCalls
         (trace (checkoutCommit repository account commit progressCallback))
       = [(gitNetworkArguments ++ "checkout" :: commitRest, path repository,
           "checkoutCommit", commitOptions)]
    /\ (hd_error branchRest = Some "--progress"
        <-> progressCallback <> None \/ name branch = "--progress")
    /\ (hd_error commitRest = Some "--progress"
        <-> progressCallback <> None \/ sha commit = "--progress").
Proof.
  do 4 eexists.
  split; [rewrite checkoutBranch_gitCalls, checkout_args_split; reflexivity|].
  split; [rewrite checkoutCommit_gitCalls, checkout_args_split; reflexivity|].
  destruct progressCallback as [callback|]; cbn [app hd_error].
  - split; (split; [intros _; left; discriminate | reflexivity]).
  - rewrite hd_error_branchArgs.
    split; (split; [intros E; right; congruence|]);
      intros [E | E]; congruence.
Qed.

End ArgumentLists.

Section Progress.

Context {X : Collaborators}.

(** ** The progress adapter *)

Lemma beforeGit_initialEvents (progressCallback : option ProgressCallback)
    (title description target : string) (args : list string)
    (cwd operation : string) (options : option IGitExecutionOptions)
    (t : list Event) :
  beforeGit (initialEvents progressCallback title description target
             ++ Git args cwd operation options :: t)
  = initialEvents progressCallback title description target.
Proof. destruct progressCallback; reflexivity. Qed.

Lemma callbackCalls_checkout (callback : ProgressCallback)
    (title description target : string) (args : list string)
    (cwd operation : string) (options : option IGitExecutionOptions)
    (stream : list Invocation) :
  callbackCalls (initialEvents (Some callback) title description target
                 ++ Git args cwd operation options :: map Callback stream)
  = Invoke callback (initialProgress title description target) :: stream.
Proof.
  unfold initialEvents. cbn [app callbackCalls flat_map]. f_equal.
  apply callbackCalls_callbacks.
Qed.

Lemma stream_values (callback : ProgressCallback) (title target : string)
    (lines : list ParsedLine) :
  map valueOf (flat_map (onCheckoutProgress callback "checkout" title target)
                 lines)
  = percents lines.
Proof.
  induction lines as [|[percent text | text] lines IH]; cbn.
  - reflexivity.
  - now rewrite IH.
  - exact IH.
Qed.

Lemma StronglySorted_weaken (A : Type) (R R' : A -> A -> Prop)
    (l : list A) :
  (forall x y, R x y -> R' x y) ->
  StronglySorted R l -> StronglySorted R' l.
Proof.
  intros HR Hs. induction Hs as [|x l Hs IH Hx]; constructor.
  - exact IH.
  - revert Hx. apply Forall_impl. intros y. apply HR.
Qed.

(** C3. With a progress callback supplied, [getCheckoutOpts] calls it once,
    with kind ["checkout"], the title and target it was given, value 0 and
    the initial description or, when there is none, the title. The trace of
    [checkoutBranch] and of [checkoutCommit] begins with that one call, the
    git invocation comes next, and every other call follows it. *)
Theorem initial_progress_precedes_git (repository : Repository)
    (account : option IGitAccount) (branch : Branch) (commit : CommitOneLine)
    (callback : ProgressCallback) (title target : string)
    (initialDescription : option string) :
  trace (getCheckoutOpts repository account title target (Some callback)
           initialDescription)
  = [Callback
       (Invoke callback
          {| kind := "checkout"; title := title;
             description := match initialDescription with
                            | Some d => d
                            | None => title
                            end;
             value := 0; target := target |})]
  /\ (let first :=
        Callback
          (Invoke callback
             {| kind := "checkout";
                title := ("Checking out branch " ++ name branch)%string;
                description :=
                  ("Switching to "
                   ++ (if __DARWIN__ then "Branch" else "branch"))%string;
                value := 0; target := name branch |}) in
      let t := trace (checkoutBranch repository account branch
                        (Some callback)) in
      beforeGit t = [first]
      /\ exists args options stream,
           t = first :: Git args (path repository) "checkoutBranch" options
                 :: map Callback stream)
  /\ (let title :=
        ("Checking out "
         ++ (if __DARWIN__ then "Commit" else "commit"))%string in
      let first :=
        Callback
          (Invoke callback
             {| kind := "checkout"; title := title; description := title;
                value := 0; target := shortenSHA (sha commit) |}) in
      let t := trace (checkoutCommit repository account commit
                        (Some callback)) in
      beforeGit t = [first]
      /\ exists args options stream,
           t = first :: Git args (path repository) "checkoutCommit" options
                 :: map Callback stream).
Proof.
  split; [|split].
  - rewrite getCheckoutOpts_run. reflexivity.
  - cbv zeta. rewrite checkoutBranch_run. unfold trace, fst. split.
    + rewrite beforeGit_initialEvents. reflexivity.
    + do 3 eexists. reflexivity.
  - cbv zeta. rewrite checkoutCommit_run. unfold trace, fst. split.
    + rewrite beforeGit_initialEvents. reflexivity.
    + do 3 eexists. reflexivity.
Qed.

(** C4. The handler of a progress-tracked checkout calls the caller's
    function exactly once for a line of kind "progress", with the line's
    percentage as value and its text as description, and kind ["checkout"],
    title and target of the invocation; for any other line it makes no call.
    The calls of the caller's function during [checkoutBranch] and
    [checkoutCommit] are the initial one followed by those of the handler
    on the parsed lines, in order. *)
Theorem progress_line_one_callback (repository : Repository)
    (account : option IGitAccount) (branch : Branch) (commit : CommitOneLine)
    (callback : ProgressCallback) :
  (forall title target percent text,
      onCheckoutProgress callback "checkout" title target
        (ProgressLine percent text)
      = [Invoke callback
           {| kind := "checkout"; title := title; description := text;
              value := percent; target := target |}])
  /\ (forall title target text,
         onCheckoutProgress callback "checkout" title target (RawLine text)
         = [])
  /\ (exists args options,
         gitCalls (trace (checkoutBranch repository account branch
                            (Some callback)))
         = [(args, path repository, "checkoutBranch", options)]
         /\ callbackCalls (trace (checkoutBranch repository account branch
                                    (Some callback)))
            = Invoke callback
                (initialProgress (branchTitle branch) branchDescription
                   (name branch))
              :: flat_map
                   (onCheckoutProgress callback "checkout"
                      (branchTitle branch) (name branch))
                   (parse CheckoutProgressParser
                      (spawn_output args (path repository))))
  /\ (exists args options,
         gitCalls (trace (checkoutCommit repository account commit
                            (Some callback)))
         = [(args, path repository, "checkoutCommit", options)]
         /\ callbackCalls (trace (checkoutCommit repository account commit
                                    (Some callback)))
            = Invoke callback
                (initialProgress commitTitle commitTitle
                   (shortenSHA (sha commit)))
              :: flat_map
                   (onCheckoutProgress callback "checkout" commitTitle
                      (shortenSHA (sha commit)))
                   (parse CheckoutProgressParser
                      (spawn_output args (path repository)))).
Proof.
  split; [reflexivity|]. split; [reflexivity|]. split.
  - do 2 eexists. split; [apply checkoutBranch_gitCalls|].
    rewrite checkoutBranch_run. unfold trace, fst, streamEvents.
    apply callbackCalls_checkout.
  - do 2 eexists. split; [apply checkoutCommit_gitCalls|].
    rewrite checkoutCommit_run. unfold trace, fst, streamEvents.
    apply callbackCalls_checkout.
Qed.

(** C5. When the percentages of the parsed lines of kind "progress"
    increase along the sequence, the values of the progress events the
    handler delivers to the caller's function, in order, never decrease. *)
Theorem progress_values_nondecreasing (callback : ProgressCallback)
    (title target : string) (lines : list ParsedLine) :
  StronglySorted Qlt (percents lines) ->
  StronglySorted Qle
    (map valueOf
       (flat_map (onCheckoutProgress callback "checkout" title target)
          lines)).
Proof.
  intros Hinc. rewrite stream_values.
  apply StronglySorted_weaken with (R := Qlt); [|exact Hinc].
  intros x y. apply Qlt_le_weak.
Qed.

(** The same for a whole invocation, the initial event included, when no
    percentage is negative. *)
Lemma checkoutBranch_values_nondecreasing (repository : Repository)
    (account : option IGitAccount) (branch : Branch)
    (callback : ProgressCallback) :
  let args := getCheckoutArgs (Some callback) ++ branchArgs branch in
  let lines :=
    parse CheckoutProgressParser (spawn_output args (path repository)) in
  Forall (Qle 0) (percents lines) ->
  StronglySorted Qlt (percents lines) ->
  StronglySorted Qle
    (map valueOf
       (callbackCalls
          (trace (checkoutBranch repository account branch
                    (Some callback))))).
Proof.
  intros args lines Hpos Hinc.
  rewrite checkoutBranch_run. fold args.
  unfold trace, fst, streamEvents.
  rewrite callbackCalls_checkout. cbn [map]. fold lines.
  rewrite stream_values. constructor.
  - apply StronglySorted_weaken with (R := Qlt); [|exact Hinc].
    intros x y. apply Qlt_le_weak.
  - exact Hpos.
Qed.

End Progress.

Section Options.

Context {X : Collaborators}.

(** ** Execution options, paths and results *)

(** C7. With or without a progress callback, the options [checkoutBranch]
    and [checkoutCommit] pass to git carry [AuthenticationErrors] as expected
    errors and the environment [envForRemoteOperation] builds from the
    account and the proxy-fallback URL of the account and repository. *)
Theorem checkout_options_errors_env (repository : Repository)
    (account : option IGitAccount) (branch : Branch) (commit : CommitOneLine)
    (progressCallback : option ProgressCallback) :
  exists branchArgs commitArgs branchOptions commitOptions,
    gitCalls
      (trace (checkoutBranch repository account branch progressCallback))
    = [(branchArgs, path repository, "checkoutBranch", Some branchOptions)]
    /\ gitCalls
         (trace (checkoutCommit repository account commit progressCallback))
       = [(commitArgs, path repository, "checkoutCommit",
           Some commitOptions)]
    /\ forall options, options = branchOptions \/ options = commitOptions ->
         expectedErrors options = Some AuthenticationErrors
         /\ env options =
            envForRemoteOperation account
              (getFallbackUrlForProxyResolve account repository).
Proof.
  do 4 eexists.
  split; [apply checkoutBranch_gitCalls|].
  split; [apply checkoutCommit_gitCalls|].
  intros options [-> | ->]; destruct progressCallback; split; reflexivity.
Qed.

(** C8. [checkoutPaths] does one thing: it invokes git with the arguments
    [checkout; HEAD; --] followed by the paths in order, in the repository's
    path, and without execution options, hence with no progress callback, no
    parser and no expected errors. *)
Theorem checkoutPaths_invocation (repository : Repository)
    (paths : list string) :
  trace (checkoutPaths repository paths)
  = [Git (["checkout"; "HEAD"; "--"] ++ paths) (path repository)
       "checkoutPaths" None].
Proof. rewrite checkoutPaths_run. reflexivity. Qed.

(** C9. [checkoutBranch] and [checkoutCommit] reject with the error of the
    git invocation when it fails, and resolve with [true] otherwise. *)
Theorem checkout_resolves_true (repository : Repository)
    (account : option IGitAccount) (branch : Branch) (commit : CommitOneLine)
    (progressCallback : option ProgressCallback) :
  (exists args options,
      gitCalls
        (trace (checkoutBranch repository account branch progressCallback))
      = [(args, path repository, "checkoutBranch", options)]
      /\ outcome (checkoutBranch repository account branch progressCallback)
         = match spawn_exit args (path repository) with
           | inl e => inl e
           | inr _ => inr true
           end)
  /\ (exists args options,
         gitCalls
           (trace (checkoutCommit repository account commit progressCallback))
         = [(args, path repository, "checkoutCommit", options)]
         /\ outcome
              (checkoutCommit repository account commit progressCallback)
            = match spawn_exit args (path repository) with
              | inl e => inl e
              | inr _ => inr true
              end).
Proof.
  split; do 2 eexists.
  - split; [apply checkoutBranch_gitCalls|].
    rewrite checkoutBranch_run. reflexivity.
  - split; [apply checkoutCommit_gitCalls|].
    rewrite checkoutCommit_run. reflexivity.
Qed.

(** C10. The options [checkoutBranch] and [checkoutCommit] pass to git have
    [trackLFSProgress] set to [true], and the checkout progress parser
    attached, when a progress callback is supplied; without one they have
    neither a [trackLFSProgress] field nor a process callback. *)
Theorem checkout_options_lfs_tracking (repository : Repository)
    (account : option IGitAccount) (branch : Branch) (commit : CommitOneLine)
    (progressCallback : option ProgressCallback) :
  exists branchArgs commitArgs branchOptions commitOptions,
    gitCalls
      (trace (checkoutBranch repository account branch progressCallback))
    = [(branchArgs, path repository, "checkoutBranch", Some branchOptions)]
    /\ gitCalls
         (trace (checkoutCommit repository account commit progressCallback))
       = [(commitArgs, path repository, "checkoutCommit",
           Some commitOptions)]
    /\ forall options, options = branchOptions \/ options = commitOptions ->
         match progressCallback with
         | Some _ =>
             trackLFSProgress options = Some true
             /\ option_map parser (processCallback options)
                = Some CheckoutProgressParser
         | None =>
             trackLFSProgress options = None
             /\ processCallback options = None
         end.
Proof.
  do 4 eexists.
  split; [apply checkoutBranch_gitCalls|].
  split; [apply checkoutCommit_gitCalls|].
  intros options [-> | ->]; destruct progressCallback; split; reflexivity.
Qed.

End Options.

(** ** The statements at a concrete environment *)

Lemma checkoutCommit_arguments_abc123 :
  (forall flag, In flag ["-b"; "--recurse-submodules"; "--"] ->
                ~ In flag ["-c"; "credential.helper="])
  /\ isOption "abc123" = false
  /\ exists args options,
       gitCalls
         (trace (@checkoutCommit (Sample.collaborators true false)
                   Sample.repo None Sample.abc123 (Some 7)))
       = [(args, "/home/me/project", "checkoutCommit", options)]
       /\ (exists front, args = front ++ ["abc123"])
       /\ last args "" = "abc123"
       /\ ~ In "-b" args
       /\ ~ In "--recurse-submodules" args
       /\ ~ In "--" args.
Proof.
  assert (Hnet : forall flag,
             In flag ["-b"; "--recurse-submodules"; "--"] ->
             ~ In flag ["-c"; "credential.helper="]).
  { intros flag Hflag Hnet. cbn in Hflag, Hnet.
    destruct Hnet as [E | [E | []]]; subst flag;
      destruct Hflag as [E | [E | [E | []]]]; discriminate E. }
  split; [exact Hnet|]. split; [reflexivity|].
  apply (@checkoutCommit_arguments (Sample.collaborators true false)
           Sample.repo None Sample.abc123 (Some 7));
    [exact Hnet | reflexivity].
Defined.

(** A local branch named [--progress], checked out without a callback, has
    ["--progress"] right after ["checkout"]: with the callback alone on the
    right of the equivalence, C6 fails. *)
Lemma checkout_base_arguments_counterexample :
  ~ (exists branchCall branchOptions,
       gitCalls
         (trace (@checkoutBranch (Sample.collaborators false false)
                   Sample.repo None Sample.dashed None))
       = [(branchCall, "/home/me/project", "checkoutBranch", branchOptions)]
       /\ exists rest,
            branchCall = ["-c"; "credential.helper="] ++ "checkout" :: rest
            /\ (hd_error rest = Some "--progress" <-> @None nat <> None)).
Proof.
  intros (branchCall & branchOptions & Hcalls & rest & Hsplit & Hiff).
  rewrite checkoutBranch_gitCalls in Hcalls.
  injection Hcalls as <- _. cbn in Hsplit. injection Hsplit as <-.
  exact (proj1 Hiff eq_refl eq_refl).
Qed.

Lemma progress_values_nondecreasing_sample :
  StronglySorted Qlt (percents Sample.fourFiles)
  /\ StronglySorted Qle
       (map (@valueOf (Sample.collaborators false false))
          (flat_map
             (@onCheckoutProgress (Sample.collaborators false false) 7
                "checkout" "Checking out branch main" "main")
             Sample.fourFiles)).
Proof.
  assert (Hinc : StronglySorted Qlt (percents Sample.fourFiles)).
  { cbn. repeat constructor; reflexivity. }
  split; [exact Hinc|].
  apply (@progress_values_nondecreasing (Sample.collaborators false false)).
  exact Hinc.
Defined.

(** * Further properties of [checkout.ts] *)

Section CheckoutExtras.

Context {X : Collaborators}.

Lemma callbackCalls_initialEvents_none (title description target : string) :
  callbackCalls (initialEvents None title description target) = [].
Proof. reflexivity. Qed.

Lemma Forall_flat_map (A B : Type) (P : B -> Prop) (f : A -> list B)
    (l : list A) :
  (forall a, Forall P (f a)) -> Forall P (flat_map f l).
Proof.
  intros Hf. induction l as [|a l IH]; cbn.
  - constructor.
  - apply Forall_app. split; [apply Hf | exact IH].
Qed.

(** X1. [checkoutConflictedFile] invokes git once, with [checkout], the
    resolution as an option, the separator and then the path of the file, in
    the repository's path and without options; it does nothing else, rejects
    with git's error and resolves otherwise. When the resolution has a
    non-empty text, the path is all that follows the first ["--"], whatever
    the path is. *)
Theorem checkoutConflictedFile_invocation
    (ManualConflictResolution WorkingDirectoryFileChange : Type)
    (resolutionText : ManualConflictResolution -> string)
    (filePath : WorkingDirectoryFileChange -> string)
    (repository : Repository) (file : WorkingDirectoryFileChange)
    (resolution : ManualConflictResolution) :
  resolutionText resolution <> "" ->
  let args :=
    ["checkout"; ("--" ++ resolutionText resolution)%string; "--";
     filePath file] in
  checkoutConflictedFile resolutionText filePath repository file resolution
  = ([Git args (path repository) "checkoutConflictedFile" None],
     match spawn_exit args (path repository) with
     | inl e => inl e
     | inr _ => inr tt
     end)
  /\ afterSeparator args = Some [filePath file].
Proof.
  intros Hres args. split.
  - unfold checkoutConflictedFile, git, emit, bind, ret, reject.
    fold args. destruct (spawn_exit args (path repository)); reflexivity.
  - unfold args. cbn [afterSeparator].
    replace (String.eqb "checkout" "--") with false by reflexivity.
    destruct (String.eqb_spec ("--" ++ resolutionText resolution) "--")
      as [E | _].
    + exfalso. apply Hres. cbn in E. now injection E as E.
    + reflexivity.
Qed.


(** X3. Every call of a progress function that [checkoutBranch] or
    [checkoutCommit] causes goes to the function the caller supplied and
    carries the kind ["checkout"] and the one title and target of the
    invocation. *)
Theorem checkout_calls_uniform (repository : Repository)
    (account : option IGitAccount) (branch : Branch) (commit : CommitOneLine)
    (callback : ProgressCallback) :
  let uniform (theTitle theTarget : string) (i : Invocation) :=
    match i with
    | Invoke callee p =>
        callee = callback /\ kind p = "checkout"
        /\ title p = theTitle /\ target p = theTarget
    end in
  Forall (uniform ("Checking out branch " ++ name branch)%string
            (name branch))
    (callbackCalls
       (trace (checkoutBranch repository account branch (Some callback))))
  /\ Forall (uniform
               ("Checking out "
                ++ (if __DARWIN__ then "Commit" else "commit"))%string
               (shortenSHA (sha commit)))
       (callbackCalls
          (trace (checkoutCommit repository account commit
                    (Some callback)))).
Proof.
  intros uniform.
  assert (Hstream : forall theTitle theTarget lines,
             Forall (uniform theTitle theTarget)
               (flat_map
                  (onCheckoutProgress callback "checkout" theTitle theTarget)
                  lines)).
  { intros theTitle theTarget lines. apply Forall_flat_map.
    intros [percent text | text]; cbn; repeat constructor. }
  split.
  - rewrite checkoutBranch_run. unfold trace, fst, streamEvents.
    rewrite callbackCalls_checkout. constructor.
    + cbn. repeat split.
    + apply Hstream.
  - rewrite checkoutCommit_run. unfold trace, fst, streamEvents.
    rewrite callbackCalls_checkout. constructor.
    + cbn. repeat split.
    + apply Hstream.
Qed.

(** X4. Without a progress callback, [checkoutBranch] and [checkoutCommit]
    cause one event only, the git invocation: no progress function is ever
    called, whatever the process writes. *)
Theorem checkout_without_callback_silent (repository : Repository)
    (account : option IGitAccount) (branch : Branch)
    (commit : CommitOneLine) :
  (exists args options,
      trace (checkoutBranch repository account branch None)
      = [Git args (path repository) "checkoutBranch" options])
  /\ (exists args options,
         trace (checkoutCommit repository account commit None)
         = [Git args (path repository) "checkoutCommit" options]).
Proof.
  split; do 2 eexists.
  - rewrite checkoutBranch_run. reflexivity.
  - rewrite checkoutCommit_run. reflexivity.
Qed.

End CheckoutExtras.

(** * Properties of the autocompleting text input *)

Section Strings.

Lemma length_append (a b : string) :
  String.length (a ++ b)%string = String.length a + String.length b.
Proof. induction a as [|ch a IH]; cbn; [reflexivity | now rewrite IH]. Qed.

Lemma substring_whole (s : string) :
  String.substring 0 (String.length s) s = s.
Proof. induction s as [|ch s IH]; cbn; [reflexivity | now rewrite IH]. Qed.

Lemma substring_head (a b : string) :
  String.substring 0 (String.length a) (a ++ b)%string = a.
Proof.
  induction a as [|ch a IH]; cbn.
  - destruct b; reflexivity.
  - now rewrite IH.
Qed.

Lemma substring_tail (a b : string) (n : nat) :
  String.substring (String.length a) n (a ++ b)%string
  = String.substring 0 n b.
Proof. induction a as [|ch a IH]; cbn; [reflexivity | exact IH]. Qed.

Lemma append_assoc (a b c : string) :
  ((a ++ b) ++ c)%string = (a ++ (b ++ c))%string.
Proof. induction a as [|ch a IH]; cbn; [reflexivity | now rewrite IH]. Qed.

(** [substr(0, n)] of a text is what stands before position [n]. *)
Lemma substr_head (a b : string) :
  Autocomplete.substr (a ++ b)%string 0 (Z.of_nat (String.length a)) = a.
Proof.
  unfold Autocomplete.substr. rewrite length_append. cbn [Z.ltb Z.compare].
  replace (Z.to_nat (Z.min 0 (Z.of_nat (String.length a + String.length b))))
    with 0 by lia.
  match goal with
  | |- String.substring 0 (Z.to_nat ?n) _ = _ =>
      replace (Z.to_nat n) with (String.length a) by lia
  end.
  apply substring_head.
Qed.

(** [substr(0, n)] with a negative [n] is empty. *)
Lemma substr_negative (s : string) (n : Z) :
  (n < 0)%Z -> Autocomplete.substr s 0 n = "".
Proof.
  intros Hn. unfold Autocomplete.substr. cbn [Z.ltb Z.compare].
  replace (Z.to_nat (Z.min 0 (Z.of_nat (String.length s)))) with 0 by lia.
  match goal with
  | |- String.substring 0 (Z.to_nat ?m) _ = _ =>
      replace (Z.to_nat m) with 0 by lia
  end.
  destruct s; reflexivity.
Qed.

(** [substring(n)] of a text is what stands from position [n] on. *)
Lemma substring_from (a b : string) :
  Autocomplete.substring (a ++ b)%string (Z.of_nat (String.length a)) = b.
Proof.
  unfold Autocomplete.substring. rewrite length_append.
  match goal with
  | |- String.substring (Z.to_nat ?n) (Z.to_nat ?m) _ = _ =>
      replace (Z.to_nat n) with (String.length a) by lia;
      replace (Z.to_nat m) with (String.length b) by lia
  end.
  rewrite substring_tail. apply substring_whole.
Qed.

Lemma substring_is_prefix (m : nat) (s : string) :
  exists rest, s = (String.substring 0 m s ++ rest)%string.
Proof.
  revert m. induction s as [|ch s IH]; intros [|m]; cbn.
  - now exists "".
  - now exists "".
  - now exists (String ch s).
  - destruct (IH m) as [rest Hrest]. exists rest. now rewrite <- Hrest.
Qed.

Lemma substring_is_suffix (n : nat) (s : string) :
  n <= String.length s ->
  exists before,
    s = (before ++ String.substring n (String.length s - n) s)%string.
Proof.
  revert s. induction n as [|n IH]; intros s Hn.
  - exists "". replace (String.length s - 0) with (String.length s) by lia.
    now rewrite substring_whole.
  - destruct s as [|ch s]; cbn in Hn; [lia|].
    destruct (IH s) as [before Hbefore]; [lia|].
    exists (String ch before). cbn. now rewrite <- Hbefore.
Qed.

(** [substr(0, n)] is a beginning of the text, whatever [n] is. *)
Lemma substr_is_prefix (s : string) (n : Z) :
  exists rest, s = (Autocomplete.substr s 0 n ++ rest)%string.
Proof.
  unfold Autocomplete.substr. cbn [Z.ltb Z.compare].
  replace (Z.to_nat (Z.min 0 (Z.of_nat (String.length s)))) with 0 by lia.
  apply substring_is_prefix.
Qed.

(** [substring(n)] is an end of the text, whatever [n] is. *)
Lemma substring_is_suffix' (s : string) (n : Z) :
  exists before, s = (before ++ Autocomplete.substring s n)%string.
Proof.
  unfold Autocomplete.substring.
  set (k := Z.to_nat (Z.min (Z.max n 0) (Z.of_nat (String.length s)))).
  replace (Z.to_nat (Z.of_nat (String.length s)
                     - Z.min (Z.max n 0) (Z.of_nat (String.length s))))
    with (String.length s - k) by (subst k; lia).
  apply substring_is_suffix. subst k. lia.
Qed.

End Strings.

Section Completion.

Import Autocomplete.

Variable Item : Type.

(** The element holds the text assigned to it. *)
Lemma assignValue_value (e : Element) (text : string) :
  value (assignValue e text) = text.
Proof.
  unfold assignValue.
  destruct (String.eqb_spec text (value e)) as [E|E];
    [symmetry; exact E | reflexivity].
Qed.

Lemma assignValue_eta (e : Element) (text : string) :
  {| value := text;
     selectionStart := selectionStart (assignValue e text);
     selectionEnd := selectionEnd (assignValue e text) |}
  = assignValue e text.
Proof.
  rewrite <- (assignValue_value e text) at 1.
  now destruct (assignValue e text).
Qed.

(** [insertCompletion] in closed form. *)
Lemma insertCompletion_run (c : Component Item) (e : Element)
    (state : IAutocompletionState Item) (item : Item) (source : Source) :
  element c = Some e ->
  autocompletionState c = Some state ->
  let text := getCompletionText (provider state) item in
  let newText := splicedText (value e) (range state) text in
  let caret := splicedCaret (value e) (range state) text in
  let after :=
    {| props := props c;
       element :=
         Some {| value := newText;
                 selectionStart :=
                   match source with
                   | keyboard => Some caret
                   | mouseclick => selectionStart (assignValue e newText)
                   end;
                 selectionEnd :=
                   match source with
                   | keyboard => Some caret
                   | mouseclick => selectionEnd (assignValue e newText)
                   end |};
       autocompletionRequestID := autocompletionRequestID c;
       shouldForceAriaLiveMessage := shouldForceAriaLiveMessage c;
       autocompletionState := None;
       effects :=
         effects c
         ++ (if onValueChanged (props c) then [ValueChanged newText] else [])
         ++ match source with
            | mouseclick => [FocusLater caret]
            | keyboard => []
            end
         ++ (if onAutocompleteItemSelected (props c)
             then [ItemSelected item] else []) |} in
  insertCompletion c item source
  = Some (if alwaysAutocomplete (props c)
          then openBegin after ""
          else (after, None)).
Proof.
  intros He Hs text newText caret after.
  unfold insertCompletion. rewrite He, Hs.
  fold text. unfold splicedText in newText. fold newText.
  unfold splicedCaret in caret. fold caret. subst after.
  cbn [props setElement].
  pose proof (assignValue_value e newText) as Hvalue.
  pose proof (assignValue_eta e newText) as Heta.
  set (assigned := assignValue e newText) in *.
  destruct source,
    (onValueChanged (props c)) eqn:Hchanged,
    (onAutocompleteItemSelected (props c)) eqn:Hselected,
    (alwaysAutocomplete (props c)) eqn:Halways;
    unfold close, setCursorPosition, perform, setState, render, setElement,
      openBegin, setRequestID;
    cbn -[newText caret assigned];
    rewrite ?Hchanged, ?Hselected, ?Halways;
    cbn -[newText caret assigned];
    rewrite <- ?app_assoc, ?app_nil_r;
    cbn -[newText caret assigned];
    rewrite ?Hchanged, ?Hselected, ?Halways, ?Hvalue, ?Heta;
    cbn -[newText caret assigned];
    reflexivity.
Qed.

Lemma openBegin_keeps (c : Component Item) (str : string) :
  let c' := fst (openBegin c str) in
  element c' = element c
  /\ autocompletionState c' = autocompletionState c
  /\ effects c' = effects c
  /\ props c' = props c.
Proof.
  intros c'. subst c'. unfold openBegin.
  destruct (element c) as [e|] eqn:He; [|cbn; rewrite He; tauto].
  destruct (selectionStart e); cbn; rewrite ?He; tauto.
Qed.

Lemma splicedText_replaces (before typed after text : string) (ch : Ascii.ascii)
    (range : IRange) :
  start range = (Z.of_nat (String.length before) + 1)%Z ->
  length range = Z.of_nat (String.length typed) ->
  splicedText (before ++ String ch typed ++ after) range text
  = (before ++ text ++ " " ++ after)%string.
Proof.
  intros Hstart Hlength. unfold splicedText. rewrite Hstart, Hlength.
  replace (Z.of_nat (String.length before) + 1 - 1)%Z
    with (Z.of_nat (String.length before)) by lia.
  rewrite substr_head.
  replace (before ++ String ch typed ++ after)%string
    with ((before ++ String ch typed) ++ after)%string
    by (rewrite append_assoc; reflexivity).
  replace (Z.of_nat (String.length before) + 1
           + Z.of_nat (String.length typed))%Z
    with (Z.of_nat (String.length (before ++ String ch typed)))
    by (rewrite length_append; cbn [String.length]; lia).
  rewrite substring_from. now rewrite !append_assoc.
Qed.

Lemma splicedCaret_replaces (before typed after text : string) (ch : Ascii.ascii)
    (range : IRange) :
  start range = (Z.of_nat (String.length before) + 1)%Z ->
  splicedCaret (before ++ String ch typed ++ after) range text
  = Z.of_nat (String.length (before ++ text ++ " ")).
Proof.
  intros Hstart. unfold splicedCaret. rewrite Hstart.
  replace (Z.of_nat (String.length before) + 1 - 1)%Z
    with (Z.of_nat (String.length before)) by lia.
  now rewrite substr_head.
Qed.

(** X5. When the range of the open popup covers the text [typed] and one
    character stands before it, [insertCompletion] replaces that character
    and the typed text by the completion text of the item and a space and
    keeps what is before and after; it hands the same new text to
    [onValueChanged] when supplied, reports the item to
    [onAutocompleteItemSelected] when supplied, and closes the popup. *)
Theorem insertCompletion_replaces_range (c : Component Item) (e : Element)
    (state : IAutocompletionState Item) (item : Item) (source : Source)
    (before typed after : string) (ch : Ascii.ascii) :
  element c = Some e ->
  autocompletionState c = Some state ->
  value e = (before ++ String ch typed ++ after)%string ->
  start (range state) = (Z.of_nat (String.length before) + 1)%Z ->
  length (range state) = Z.of_nat (String.length typed) ->
  let text := getCompletionText (provider state) item in
  let newText := (before ++ text ++ " " ++ after)%string in
  exists c' pending,
    insertCompletion c item source = Some (c', pending)
    /\ option_map value (element c') = Some newText
    /\ autocompletionState c' = None
    /\ effects c'
       = effects c
         ++ (if onValueChanged (props c) then [ValueChanged newText] else [])
         ++ match source with
            | mouseclick =>
                [FocusLater
                   (Z.of_nat (String.length (before ++ text ++ " ")))]
            | keyboard => []
            end
         ++ (if onAutocompleteItemSelected (props c)
             then [ItemSelected item] else []).
Proof.
  intros He Hs Hvalue Hstart Hlength text newText.
  rewrite (insertCompletion_run c item source He Hs).
  fold text.
  rewrite Hvalue.
  rewrite splicedText_replaces by assumption.
  rewrite splicedCaret_replaces by assumption.
  fold newText.
  match goal with
  | |- context [openBegin ?a ""] =>
      destruct (openBegin_keeps a "") as (Hel & Hst & Hef & _);
      set (after' := a) in *
  end.
  exists (if alwaysAutocomplete (props c)
          then fst (openBegin after' "") else after'),
         (if alwaysAutocomplete (props c)
          then snd (openBegin after' "") else None).
  split.
  { destruct (alwaysAutocomplete (props c)); [|reflexivity].
    now destruct (openBegin after' ""). }
  assert (E : forall A (f : Component Item -> A),
             f (fst (openBegin after' "")) = f after' ->
             f (if alwaysAutocomplete (props c)
                then fst (openBegin after' "") else after') = f after').
  { intros A f Hf. now destruct (alwaysAutocomplete (props c)). }
  rewrite (E _ (@element Item) Hel), (E _ (@autocompletionState Item) Hst),
    (E _ (@effects Item) Hef).
  subst after'. cbn [element autocompletionState effects option_map value].
  repeat split; reflexivity.
Qed.

(** X6. Under the same conditions, [insertCompletion] from the keyboard
    puts both ends of the selection right behind the inserted space: what
    stands before the caret is the kept text, the completion and the space,
    what stands from the caret on is the text that followed the range. *)
Theorem insertCompletion_caret (c : Component Item) (e : Element)
    (state : IAutocompletionState Item) (item : Item)
    (before typed after : string) (ch : Ascii.ascii) :
  element c = Some e ->
  autocompletionState c = Some state ->
  value e = (before ++ String ch typed ++ after)%string ->
  start (range state) = (Z.of_nat (String.length before) + 1)%Z ->
  length (range state) = Z.of_nat (String.length typed) ->
  let text := getCompletionText (provider state) item in
  exists c' e' pending caret,
    insertCompletion c item keyboard = Some (c', pending)
    /\ element c' = Some e'
    /\ selectionStart e' = Some caret
    /\ selectionEnd e' = Some caret
    /\ substr (value e') 0 caret = (before ++ text ++ " ")%string
    /\ substring (value e') caret = after.
Proof.
  intros He Hs Hvalue Hstart Hlength text.
  rewrite (insertCompletion_run c item keyboard He Hs).
  fold text. rewrite Hvalue.
  rewrite splicedText_replaces by assumption.
  rewrite splicedCaret_replaces by assumption.
  match goal with
  | |- context [openBegin ?a ""] =>
      destruct (openBegin_keeps a "") as (Hel & _);
      set (after' := a) in *
  end.
  exists (if alwaysAutocomplete (props c)
          then fst (openBegin after' "") else after').
  eexists.
  exists (if alwaysAutocomplete (props c)
          then snd (openBegin after' "") else None).
  eexists.
  split.
  { destruct (alwaysAutocomplete (props c)); [|reflexivity].
    now destruct (openBegin after' ""). }
  split.
  { destruct (alwaysAutocomplete (props c)); [rewrite Hel|];
      reflexivity. }
  cbn [selectionStart selectionEnd value].
  split; [reflexivity|]. split; [reflexivity|].
  replace (before ++ text ++ " " ++ after)%string
    with ((before ++ text ++ " ") ++ after)%string
    by now rewrite !append_assoc.
  split; [apply substr_head | apply substring_from].
Qed.

(** X7. When the range starts at the very beginning of the text, there is
    no character before it to replace: [insertCompletion] puts the
    completion text and a space in place of the typed text and keeps what
    follows. *)
Theorem insertCompletion_at_start (c : Component Item) (e : Element)
    (state : IAutocompletionState Item) (item : Item) (source : Source)
    (typed after : string) :
  element c = Some e ->
  autocompletionState c = Some state ->
  value e = (typed ++ after)%string ->
  start (range state) = 0%Z ->
  length (range state) = Z.of_nat (String.length typed) ->
  let text := getCompletionText (provider state) item in
  exists c' pending,
    insertCompletion c item source = Some (c', pending)
    /\ option_map value (element c') = Some (text ++ " " ++ after)%string.
Proof.
  intros He Hs Hvalue Hstart Hlength text.
  rewrite (insertCompletion_run c item source He Hs).
  fold text. rewrite Hvalue. unfold splicedText.
  rewrite Hstart, Hlength, substr_negative by lia.
  rewrite Z.add_0_l, substring_from. cbn [append].
  match goal with
  | |- context [openBegin ?a ""] =>
      destruct (openBegin_keeps a "") as (Hel & _);
      set (after' := a) in *
  end.
  exists (if alwaysAutocomplete (props c)
          then fst (openBegin after' "") else after'),
         (if alwaysAutocomplete (props c)
          then snd (openBegin after' "") else None).
  split.
  { destruct (alwaysAutocomplete (props c)); [|reflexivity].
    now destruct (openBegin after' ""). }
  destruct (alwaysAutocomplete (props c)); [rewrite Hel|];
    cbn; now rewrite append_assoc.
Qed.

(** X17. Whatever the range of the open popup is, [insertCompletion]
    does not fail when the element and the state are there, and the text it
    assigns is a beginning of the old text, the completion text, a space,
    and an end of the old text. *)
Theorem insertCompletion_keeps_ends (c : Component Item) (e : Element)
    (state : IAutocompletionState Item) (item : Item) (source : Source) :
  element c = Some e ->
  autocompletionState c = Some state ->
  exists c' pending head tail,
    insertCompletion c item source = Some (c', pending)
    /\ option_map value (element c')
       = Some (head ++ getCompletionText (provider state) item ++ " "
               ++ tail)%string
    /\ (exists rest, value e = (head ++ rest)%string)
    /\ (exists before, value e = (before ++ tail)%string).
Proof.
  intros He Hs.
  rewrite (insertCompletion_run c item source He Hs).
  match goal with
  | |- context [openBegin ?a ""] =>
      destruct (openBegin_keeps a "") as (Hel & _);
      set (after' := a) in *
  end.
  exists (if alwaysAutocomplete (props c)
          then fst (openBegin after' "") else after'),
         (if alwaysAutocomplete (props c)
          then snd (openBegin after' "") else None),
         (substr (value e) 0 (start (range state) - 1)),
         (substring (value e) (start (range state) + length (range state))).
  split.
  { destruct (alwaysAutocomplete (props c)); [|reflexivity].
    now destruct (openBegin after' ""). }
  split.
  { destruct (alwaysAutocomplete (props c)); [rewrite Hel|];
      cbn; unfold splicedText; now rewrite !append_assoc. }
  split; [apply substr_is_prefix | apply substring_is_suffix'].
Qed.

End Completion.

Section Attempting.

Import Autocomplete.

Variable Item : Type.

(** More calls do not change what a loop that has ended gave. *)
Lemma firstCompletable_more (fuel extra : nat) (always : bool)
    (caretPosition : Z) (exec : nat -> option (Z * option string)) (n : nat)
    (outcome : option (Z * string)) :
  firstCompletable fuel always caretPosition exec n = Some outcome ->
  firstCompletable (fuel + extra) always caretPosition exec n = Some outcome.
Proof.
  revert n. induction fuel as [|fuel IH]; intros n; cbn; [discriminate|].
  destruct (exec n) as [[index group]|]; [|tauto].
  destruct ((index =? caretPosition)%Z || always); [tauto | apply IH].
Qed.

Lemma firstCompletable_le (fuel fuel' : nat) (always : bool)
    (caretPosition : Z) (exec : nat -> option (Z * option string)) (n : nat)
    (outcome : option (Z * string)) :
  firstCompletable fuel always caretPosition exec n = Some outcome ->
  fuel <= fuel' ->
  firstCompletable fuel' always caretPosition exec n = Some outcome.
Proof.
  intros H Hle. replace fuel' with (fuel + (fuel' - fuel)) by lia.
  now apply firstCompletable_more.
Qed.

(** The loop spends one call on every result it passes over. *)
Lemma firstCompletable_skip (always : bool) (caretPosition : Z)
    (exec : nat -> option (Z * option string)) (d : nat) :
  forall m fuel,
    passedOverBetween always caretPosition exec m (m + d) ->
    firstCompletable (d + fuel) always caretPosition exec m
    = firstCompletable fuel always caretPosition exec (m + d).
Proof.
  induction d as [|d IH]; intros m fuel Hpass.
  - now rewrite Nat.add_0_r.
  - cbn [Nat.add firstCompletable].
    destruct (Hpass m ltac:(lia)) as ([index group] & E & Hfalse & Hne).
    cbn in Hne. subst always. rewrite E.
    destruct (Z.eqb_spec index caretPosition) as [Heq | _];
      [contradiction|].
    cbn [orb]. rewrite IH.
    + f_equal. lia.
    + intros k Hk. apply Hpass. lia.
Qed.

Lemma firstCompletable_null (fuel : nat) (always : bool) (caretPosition : Z)
    (exec : nat -> option (Z * option string)) :
  forall m,
    firstCompletable fuel always caretPosition exec m = Some None ->
    exists n, m <= n
              /\ passedOverBetween always caretPosition exec m n
              /\ exec n = None.
Proof.
  induction fuel as [|fuel IH]; intros m; cbn; [discriminate|].
  destruct (exec m) as [[index group]|] eqn:E.
  - destruct ((index =? caretPosition)%Z || always) eqn:Htest;
      [discriminate|].
    intros H. apply IH in H. destruct H as (n & Hle & Hpass & Hnull).
    exists n. split; [lia|]. split; [|exact Hnull].
    intros k Hk. destruct (Nat.eq_dec k m) as [-> | Hkm].
    + exists (index, group). split; [exact E|].
      apply Bool.orb_false_iff in Htest. destruct Htest as [Hne Hfalse].
      split; [exact Hfalse | now apply Z.eqb_neq].
    + apply Hpass. lia.
  - intros _. exists m. split; [lia|]. split; [|exact E].
    intros k Hk. lia.
Qed.

Lemma firstCompletable_found (fuel : nat) (always : bool) (caretPosition : Z)
    (exec : nat -> option (Z * option string)) (index : Z) (text : string) :
  forall m,
    firstCompletable fuel always caretPosition exec m
    = Some (Some (index, text)) ->
    exists n group,
      m <= n
      /\ passedOverBetween always caretPosition exec m n
      /\ exec n = Some (index, group)
      /\ text = match group with Some t => t | None => "" end
      /\ (always = true \/ index = caretPosition).
Proof.
  induction fuel as [|fuel IH]; intros m; cbn; [discriminate|].
  destruct (exec m) as [[i g]|] eqn:E; [|discriminate].
  destruct ((i =? caretPosition)%Z || always) eqn:Htest.
  - intros H. injection H as <- <-. exists m, g.
    split; [lia|]. split; [intros k Hk; lia|]. split; [exact E|].
    split; [reflexivity|].
    apply Bool.orb_true_iff in Htest. destruct Htest as [Hat | Hat].
    + right. now apply Z.eqb_eq.
    + now left.
  - intros H. apply IH in H.
    destruct H as (n & group & Hle & Hpass & Hn & Htext & Hat).
    exists n, group. split; [lia|]. split; [|tauto].
    intros k Hk. destruct (Nat.eq_dec k m) as [-> | Hkm].
    + exists (i, g). split; [exact E|].
      apply Bool.orb_false_iff in Htest. destruct Htest as [Hne Hfalse].
      split; [exact Hfalse | now apply Z.eqb_neq].
    + apply Hpass. lia.
Qed.

(** After [n] results passed over, a call that returns [null] ends the
    loop. *)
Lemma firstCompletable_ends (always : bool) (caretPosition : Z)
    (exec : nat -> option (Z * option string)) (n fuel : nat) :
  passedOverBetween always caretPosition exec 0 n ->
  exec n = None ->
  n + 1 <= fuel ->
  firstCompletable fuel always caretPosition exec 0 = Some None.
Proof.
  intros Hpass Hnull Hle.
  apply firstCompletable_le with (fuel := n + 1); [|exact Hle].
  rewrite firstCompletable_skip by exact Hpass.
  cbn. now rewrite Hnull.
Qed.

(** After [n] results passed over, a result that is taken ends the loop. *)
Lemma firstCompletable_takes (always : bool) (caretPosition : Z)
    (exec : nat -> option (Z * option string)) (n fuel : nat) (index : Z)
    (group : option string) :
  passedOverBetween always caretPosition exec 0 n ->
  exec n = Some (index, group) ->
  always = true \/ index = caretPosition ->
  n + 1 <= fuel ->
  firstCompletable fuel always caretPosition exec 0
  = Some (Some (index, match group with Some t => t | None => "" end)).
Proof.
  intros Hpass Hn Hat Hle.
  apply firstCompletable_le with (fuel := n + 1); [|exact Hle].
  rewrite firstCompletable_skip by exact Hpass.
  cbn. rewrite Hn.
  destruct Hat as [-> | ->];
    [now rewrite Bool.orb_true_r | now rewrite Z.eqb_refl].
Qed.

(** A loop that passes over every result never ends. *)
Lemma firstCompletable_never (always : bool) (caretPosition : Z)
    (exec : nat -> option (Z * option string)) (fuel : nat) :
  (forall n, passedOverBetween always caretPosition exec 0 n) ->
  firstCompletable fuel always caretPosition exec 0 = None.
Proof.
  intros Hpass. rewrite <- (Nat.add_0_r fuel).
  now rewrite firstCompletable_skip by apply Hpass.
Qed.

Lemma attemptProviders_le (fuel fuel' : nat) (p : Props Item) (str : string)
    (caretPosition : Z) (prefix : string)
    (providers : list (IAutocompletionProvider Item)) (a : Attempt Item) :
  attemptProviders fuel p str caretPosition prefix providers = Some a ->
  fuel <= fuel' ->
  attemptProviders fuel' p str caretPosition prefix providers = Some a.
Proof.
  intros H Hle. revert H.
  induction providers as [|q providers IH]; cbn; [tauto|].
  destruct (regexGlobal q); cbn; [|tauto].
  destruct (firstCompletable fuel (alwaysAutocomplete p) caretPosition
              (regexExec q str) 0) as [outcome|] eqn:Hfirst; [|discriminate].
  rewrite (firstCompletable_le _ _ _ _ Hfirst Hle).
  destruct outcome as [[index text]|]; [tauto | exact IH].
Qed.

(** With enough calls, the loop over the providers leaves the providers it
    passes over behind. *)
Lemma attemptProviders_passes (p : Props Item) (str : string)
    (caretPosition : Z) (prefix : string)
    (earlier rest : list (IAutocompletionProvider Item)) :
  Forall (providerPassedOver (alwaysAutocomplete p) str caretPosition)
    earlier ->
  exists enough,
    forall fuel, enough <= fuel ->
      attemptProviders fuel p str caretPosition prefix (earlier ++ rest)
      = attemptProviders fuel p str caretPosition prefix rest.
Proof.
  induction 1 as [|q earlier (Hglobal & n & Hpass & Hnull) _ (enough & IH)].
  - exists 0. reflexivity.
  - exists (Nat.max (n + 1) enough). intros fuel Hle. cbn.
    rewrite Hglobal. cbn.
    erewrite firstCompletable_ends; [ | exact Hpass | exact Hnull | lia ].
    apply IH. lia.
Qed.

Lemma attemptProviders_spec (fuel : nat) (p : Props Item) (str : string)
    (caretPosition : Z) (prefix : string)
    (providers : list (IAutocompletionProvider Item)) :
  match attemptProviders fuel p str caretPosition prefix providers with
  | None => True
  | Some Fatal =>
      exists earlier provider later,
        providers = earlier ++ provider :: later
        /\ Forall (providerPassedOver (alwaysAutocomplete p) str
                     caretPosition) earlier
        /\ regexGlobal provider = false
  | Some (Resolved None) =>
      Forall (providerPassedOver (alwaysAutocomplete p) str caretPosition)
        providers
  | Some (Resolved (Some state)) =>
      exists earlier provider later index text n group,
        providers = earlier ++ provider :: later
        /\ Forall (providerPassedOver (alwaysAutocomplete p) str
                     caretPosition) earlier
        /\ regexGlobal provider = true
        /\ regexExec provider str n = Some (index, group)
        /\ text = match group with Some t => t | None => "" end
        /\ (alwaysAutocomplete p = true \/ index = caretPosition)
        /\ state = stateOf p prefix provider index text
  end.
Proof.
  induction providers as [|provider providers IH]; cbn.
  - constructor.
  - destruct (regexGlobal provider) eqn:Hglobal; cbn.
    + destruct (firstCompletable fuel (alwaysAutocomplete p) caretPosition
                  (regexExec provider str) 0) as [[[index text]|]|] eqn:Hfirst;
        [ | | exact I].
      * apply firstCompletable_found in Hfirst.
        destruct Hfirst as (n & group & _ & _ & Hn & Htext & Hat).
        exists [], provider, providers, index, text, n, group.
        repeat split; [constructor | assumption..].
      * assert (Hpass : providerPassedOver (alwaysAutocomplete p) str
                          caretPosition provider).
        { split; [assumption|]. apply firstCompletable_null in Hfirst.
          destruct Hfirst as (n & _ & Hpass & Hnull). now exists n. }
        destruct (attemptProviders fuel p str caretPosition prefix providers)
          as [[|[state|]]|]; [ | | | exact I].
        -- destruct IH as (earlier & q & later & -> & Hearlier & Hq).
           exists (provider :: earlier), q, later.
           repeat split; [constructor|]; assumption.
        -- destruct IH as (earlier & q & later & index & text & n & group
                           & -> & Hearlier & Hq & Hn & Htext & Hat & ->).
           exists (provider :: earlier), q, later, index, text, n, group.
           repeat split; try assumption. now constructor.
        -- now constructor.
    + exists [], provider, providers. repeat split; [constructor | assumption].
Qed.

(** X8. [attemptAutocompletion] resolves with [null] exactly when every
    provider is passed over: its regex is global and, after results none of
    which is taken (the input does not always complete and the result does
    not end at the caret), a call of [exec] returns [null]. It throws the
    fatal error exactly when it reaches a provider whose regex is not
    global, all the providers before it having been passed over. It never
    returns when it reaches a provider with a global regex no call of which
    returns [null] and none of whose results is taken. *)
Theorem attemptAutocompletion_null_or_fatal (c : Component Item)
    (str : string) (caretPosition : Z) (prefix : string) :
  let always := alwaysAutocomplete (props c) in
  let providers := autocompletionProviders (props c) in
  ((exists fuel,
      attemptAutocompletion fuel c str caretPosition prefix
      = Some (Resolved None))
   <-> Forall (providerPassedOver always str caretPosition) providers)
  /\ ((exists fuel,
         attemptAutocompletion fuel c str caretPosition prefix = Some Fatal)
      <-> exists earlier provider later,
            providers = earlier ++ provider :: later
            /\ Forall (providerPassedOver always str caretPosition) earlier
            /\ regexGlobal provider = false)
  /\ ((exists earlier provider later,
         providers = earlier ++ provider :: later
         /\ Forall (providerPassedOver always str caretPosition) earlier
         /\ providerNeverLeft always str caretPosition provider)
      -> forall fuel,
           attemptAutocompletion fuel c str caretPosition prefix = None).
Proof.
  intros always providers. unfold attemptAutocompletion. fold providers.
  split; [|split].
  - split.
    + intros (fuel & E).
      pose proof (attemptProviders_spec fuel (props c) str caretPosition
                    prefix providers) as Hspec.
      now rewrite E in Hspec.
    + intros Hall.
      destruct (attemptProviders_passes (props c) prefix [] Hall)
        as (enough & Henough).
      exists enough. rewrite app_nil_r in Henough.
      now rewrite Henough.
  - split.
    + intros (fuel & E).
      pose proof (attemptProviders_spec fuel (props c) str caretPosition
                    prefix providers) as Hspec.
      now rewrite E in Hspec.
    + intros (earlier & provider & later & -> & Hearlier & Hglobal).
      destruct (attemptProviders_passes (props c) prefix (provider :: later)
                  Hearlier) as (enough & Henough).
      exists enough. rewrite Henough by lia. cbn. now rewrite Hglobal.
  - intros (earlier & provider & later & -> & Hearlier & Hglobal & Hnever)
      fuel.
    destruct (attemptProviders_passes (props c) prefix (provider :: later)
                Hearlier) as (enough & Henough).
    destruct (attemptProviders fuel (props c) str caretPosition prefix
                (earlier ++ provider :: later)) as [a|] eqn:E;
      [|reflexivity].
    apply attemptProviders_le with (fuel' := Nat.max fuel enough) in E;
      [|lia].
    rewrite Henough in E by lia. cbn in E. rewrite Hglobal in E. cbn in E.
    rewrite firstCompletable_never in E by exact Hnever. discriminate.
Qed.

Lemma attemptAutocompletion_ends_at_caret (fuel : nat) (c : Component Item)
    (str : string) (caretPosition : Z) (prefix : string)
    (state : IAutocompletionState Item) :
  attemptAutocompletion fuel c str caretPosition prefix
  = Some (Resolved (Some state)) ->
  alwaysAutocomplete (props c) = false ->
  (start (range state) + length (range state))%Z = caretPosition.
Proof.
  intros E Halways. unfold attemptAutocompletion in E.
  pose proof (attemptProviders_spec fuel (props c) str caretPosition prefix
                (autocompletionProviders (props c))) as Hspec.
  rewrite E in Hspec.
  destruct Hspec as (earlier & q & later & index & text & n & group & _ & _
                     & _ & _ & _ & Hat & ->).
  cbn [stateOf range start length].
  destruct Hat as [Hat | Hat]; [congruence | lia].
Qed.

(** X9. A state [attemptAutocompletion] resolves with comes from one of the
    providers, whose regex is global; its range has the length of its range
    text and ends where a result of that provider's regex ends, which is the
    caret unless the input always completes; its items are the provider's
    items for the range text, in order, those the filter rejects left out;
    nothing is selected in it. *)
Theorem attemptAutocompletion_state (fuel : nat) (c : Component Item)
    (str : string) (caretPosition : Z) (prefix : string)
    (state : IAutocompletionState Item) :
  attemptAutocompletion fuel c str caretPosition prefix
  = Some (Resolved (Some state)) ->
  In (provider state) (autocompletionProviders (props c))
  /\ regexGlobal (provider state) = true
  /\ length (range state) = Z.of_nat (String.length (rangeText state))
  /\ (exists n group,
        regexExec (provider state) str n
        = Some ((start (range state) + length (range state))%Z, group)
        /\ rangeText state = match group with Some t => t | None => "" end)
  /\ (alwaysAutocomplete (props c) = false ->
      (start (range state) + length (range state))%Z = caretPosition)
  /\ items state
     = match autocompleteItemFilter (props c) with
       | Some keep =>
           filter keep
             (getAutocompletionItems (provider state) (rangeText state))
       | None => getAutocompletionItems (provider state) (rangeText state)
       end
  /\ selectedItem state = None
  /\ selectedRowId state = None
  /\ itemListRowIdPrefix state = prefix.
Proof.
  intros E. unfold attemptAutocompletion in E.
  pose proof (attemptProviders_spec fuel (props c) str caretPosition prefix
                (autocompletionProviders (props c))) as Hspec.
  rewrite E in Hspec.
  destruct Hspec as (earlier & q & later & index & text & n & group & Hsplit
                     & _ & Hglobal & Hn & Htext & Hat & ->).
  cbn [stateOf provider range rangeText items selectedItem selectedRowId
       itemListRowIdPrefix start length].
  replace (index - Z.of_nat (String.length text)
           + Z.of_nat (String.length text))%Z with index by lia.
  repeat split; try assumption; try reflexivity.
  - rewrite Hsplit. apply in_or_app. right. now left.
  - exists n, group. now split.
  - intros Halways. destruct Hat; congruence.
Qed.

(** X10. The providers are asked in order and the results of a regex in
    order: when the input does not always complete, the first provider with
    a result that ends at the caret, all earlier providers having been
    passed over, gives the state, with the text of the first such result;
    [attemptAutocompletion] returns it after finitely many calls of the
    regexes. *)
Theorem attemptAutocompletion_first_match (c : Component Item)
    (str : string) (caretPosition : Z) (prefix : string)
    (earlier later : list (IAutocompletionProvider Item))
    (chosen : IAutocompletionProvider Item)
    (n : nat) (group : option string) :
  alwaysAutocomplete (props c) = false ->
  autocompletionProviders (props c) = earlier ++ chosen :: later ->
  Forall (providerPassedOver false str caretPosition) earlier ->
  regexGlobal chosen = true ->
  regexExec chosen str n = Some (caretPosition, group) ->
  (forall k, k < n ->
     exists result, regexExec chosen str k = Some result
                    /\ fst result <> caretPosition) ->
  let text := match group with Some t => t | None => "" end in
  exists state enough,
    (forall fuel, enough <= fuel ->
       attemptAutocompletion fuel c str caretPosition prefix
       = Some (Resolved (Some state)))
    /\ provider state = chosen
    /\ rangeText state = text
    /\ start (range state)
       = (caretPosition - Z.of_nat (String.length text))%Z
    /\ length (range state) = Z.of_nat (String.length text).
Proof.
  intros Halways Hproviders Hearlier Hglobal Hn Hskipped text.
  exists (stateOf (props c) prefix chosen caretPosition text).
  rewrite <- Halways in Hearlier.
  destruct (attemptProviders_passes (props c) prefix (chosen :: later)
              Hearlier) as (enough & Henough).
  exists (Nat.max enough (n + 1)).
  split; [|repeat split].
  intros fuel Hle. unfold attemptAutocompletion.
  rewrite Hproviders, Henough by lia. cbn. rewrite Hglobal. cbn.
  erewrite firstCompletable_takes with (n := n).
  - reflexivity.
  - intros k Hk. destruct (Hskipped k ltac:(lia)) as (result & E & Hne).
    exists result. split; [exact E|]. now split.
  - exact Hn.
  - now right.
  - lia.
Qed.

(** X11. When the input always completes, where the caret is does not
    matter: [attemptAutocompletion] gives the same for every caret
    position. *)
Theorem attemptAutocompletion_always (fuel : nat) (c : Component Item)
    (str : string) (caretPosition caretPosition' : Z) (prefix : string) :
  alwaysAutocomplete (props c) = true ->
  attemptAutocompletion fuel c str caretPosition prefix
  = attemptAutocompletion fuel c str caretPosition' prefix.
Proof.
  intros Halways. unfold attemptAutocompletion.
  assert (Hfirst : forall exec n,
             firstCompletable fuel true caretPosition exec n
             = firstCompletable fuel true caretPosition' exec n).
  { intros exec n. destruct fuel as [|fuel']; cbn; [reflexivity|].
    destruct (exec n) as [[index group]|]; [|reflexivity].
    now rewrite !Bool.orb_true_r. }
  induction (autocompletionProviders (props c)) as [|p providers IH]; cbn.
  - reflexivity.
  - rewrite Halways, Hfirst.
    destruct (regexGlobal p); cbn; [|reflexivity].
    destruct (firstCompletable fuel true caretPosition' (regexExec p str) 0)
      as [[[index text]|]|]; [reflexivity | exact IH | reflexivity].
Qed.

End Attempting.

Section Requests.

Import Autocomplete.

Variable Item : Type.

Lemma openBegin_started (c c1 : Component Item) (str s : string)
    (k caretPosition : Z) :
  openBegin c str = (c1, Some (k, s, caretPosition)) ->
  c1 = setRequestID c k
  /\ k = (autocompletionRequestID c + 1)%Z
  /\ s = str
  /\ option_map selectionStart (element c) = Some (Some caretPosition).
Proof.
  unfold openBegin. destruct (element c) as [e|]; [|discriminate].
  destruct (selectionStart e) as [caret|] eqn:Hcaret; [|discriminate].
  intros E. injection E as <- <- <- <-. cbn. now rewrite Hcaret.
Qed.

Lemma step_older (c : Component Item) (s : Step Item) :
  olderThan (autocompletionRequestID c) s -> step c s = c.
Proof.
  destruct s as [str | requestID [|result]]; cbn; [tauto | reflexivity |].
  intros Hlt. destruct (Z.eqb_spec requestID (autocompletionRequestID c));
    [lia | reflexivity].
Qed.

Lemma run_older (c : Component Item) (schedule : list (Step Item)) :
  Forall (olderThan (autocompletionRequestID c)) schedule ->
  run c schedule = c.
Proof.
  unfold run. induction schedule as [|s schedule IH]; intros H; cbn.
  - reflexivity.
  - inversion H as [|? ? Hs Hrest]; subst.
    rewrite step_older by exact Hs. now apply IH.
Qed.

Lemma run_app (c : Component Item) (s1 s2 : list (Step Item)) :
  run c (s1 ++ s2) = run (run c s1) s2.
Proof. apply fold_left_app. Qed.

(** A render changes nothing but [shouldForceAriaLiveMessage]. *)
Lemma render_fields (c : Component Item) :
  props (render c) = props c
  /\ element (render c) = element c
  /\ autocompletionRequestID (render c) = autocompletionRequestID c
  /\ autocompletionState (render c) = autocompletionState c
  /\ effects (render c) = effects c.
Proof.
  unfold render.
  destruct (autocompletionState c) as [state|] eqn:Hs;
    [destruct (items state)|]; cbn; rewrite ?Hs; tauto.
Qed.

Lemma setState_fields (c : Component Item)
    (s : option (IAutocompletionState Item)) :
  props (setState c s) = props c
  /\ element (setState c s) = element c
  /\ autocompletionRequestID (setState c s) = autocompletionRequestID c
  /\ autocompletionState (setState c s) = s
  /\ effects (setState c s) = effects c.
Proof.
  unfold setState.
  match goal with
  | |- context [render ?x] => exact (render_fields x)
  end.
Qed.

(** X12. When the input does not always complete and
    [attemptAutocompletion] finds a state for the text and the caret of the
    element, then after [open] has set that state, [insertCompletion] from
    the keyboard leaves everything that stood from the caret on in place and
    puts the caret right in front of it; the popup is closed. *)
Theorem open_then_insertCompletion (fuel : nat) (c : Component Item)
    (e : Element) (caretPosition : Z) (prefix : string)
    (state : IAutocompletionState Item) (item : Item) :
  element c = Some e ->
  selectionStart e = Some caretPosition ->
  alwaysAutocomplete (props c) = false ->
  attemptAutocompletion fuel c (value e) caretPosition prefix
  = Some (Resolved (Some state)) ->
  exists opened c' e' head,
    open fuel c (value e) prefix = Some opened
    /\ insertCompletion opened item keyboard = Some (c', None)
    /\ element c' = Some e'
    /\ value e' = (head ++ substring (value e) caretPosition)%string
    /\ selectionStart e' = Some (Z.of_nat (String.length head))
    /\ selectionEnd e' = Some (Z.of_nat (String.length head))
    /\ autocompletionState c' = None.
Proof.
  intros He Hcaret Halways Hattempt.
  pose proof Hattempt as Hend.
  apply attemptAutocompletion_ends_at_caret in Hend; [|exact Halways].
  destruct (setState_fields
              (setShouldForce
                 (setRequestID c (autocompletionRequestID c + 1)) true)
              (Some state)) as (Hp & Hel & _ & Hst & _).
  cbn [props element setShouldForce setRequestID] in Hp, Hel.
  exists (setState
            (setShouldForce
               (setRequestID c (autocompletionRequestID c + 1)) true)
            (Some state)).
  match goal with
  | |- context [insertCompletion ?o] => set (opened := o) in *
  end.
  assert (Hopen : open fuel c (value e) prefix = Some opened).
  { unfold open, openBegin. rewrite He, Hcaret.
    assert (E : attemptAutocompletion fuel
                  (setRequestID c (autocompletionRequestID c + 1))
                  (value e) caretPosition prefix
                = Some (Resolved (Some state))) by exact Hattempt.
    rewrite E. cbn. now rewrite Z.eqb_refl. }
  erewrite insertCompletion_run;
    [ | rewrite Hel; exact He | exact Hst ].
  rewrite Hp, Halways.
  do 3 eexists. split; [exact Hopen|]. split; [reflexivity|].
  cbn [element value selectionStart selectionEnd autocompletionState].
  split; [reflexivity|].
  unfold splicedText, splicedCaret. rewrite Hend.
  repeat split; reflexivity.
Qed.

(** X13. The request started last decides: once a request has been
    started, the returns of requests with smaller identifiers, whether they
    come before or after its own return, change nothing: after them the
    state of the component is the one the request itself resolved with, and
    the request is still the latest. *)
Theorem latest_request_wins (c c1 : Component Item)
    (history before after : list (Step Item)) (str s : string)
    (k caretPosition : Z) (result : option (IAutocompletionState Item)) :
  openBegin (run c history) str = (c1, Some (k, s, caretPosition)) ->
  Forall (olderThan k) before ->
  Forall (olderThan k) after ->
  let final :=
    run c (history ++ Begin str :: before
           ++ End k (Resolved result) :: after) in
  run c (history ++ Begin str :: before) = c1
  /\ autocompletionState final = result
  /\ autocompletionRequestID final = k.
Proof.
  intros Hbegin Hbefore Hafter final.
  pose proof Hbegin as Hstarted. apply openBegin_started in Hstarted.
  destruct Hstarted as (Hc1 & _).
  assert (Hid : autocompletionRequestID c1 = k) by now rewrite Hc1.
  assert (Hrun : run c (history ++ Begin str :: before) = c1).
  { rewrite run_app. unfold run at 1. cbn [fold_left step].
    rewrite Hbegin. cbn [fst]. fold (run c1 before).
    apply run_older. rewrite Hid. exact Hbefore. }
  split; [exact Hrun|].
  destruct (setState_fields (setShouldForce c1 true) result)
    as (_ & _ & Hsame & Hstate & _).
  cbn [autocompletionRequestID setShouldForce] in Hsame.
  assert (Hfinal : final = setState (setShouldForce c1 true) result).
  { subst final.
    replace (history ++ Begin str :: before
             ++ End k (Resolved result) :: after)
      with ((history ++ Begin str :: before)
            ++ End k (Resolved result) :: after)
      by now rewrite <- app_assoc.
    rewrite run_app, Hrun. unfold run. cbn [fold_left step openEnd].
    rewrite Hid, Z.eqb_refl. cbn [negb].
    apply run_older. rewrite Hsame, Hid. exact Hafter. }
  rewrite Hfinal, Hsame, Hstate. now split.
Qed.

(** X14. Closing the popup does not cancel a request in flight: when the
    request returns after [close], the state it resolved with is set. *)
Theorem close_keeps_request (c c1 : Component Item) (str s : string)
    (k caretPosition : Z) (result : option (IAutocompletionState Item)) :
  openBegin c str = (c1, Some (k, s, caretPosition)) ->
  autocompletionState (openEnd (close c1) k (Resolved result)) = result.
Proof.
  intros Hbegin. apply openBegin_started in Hbegin. destruct Hbegin as (-> & _).
  unfold openEnd, close.
  destruct (setState_fields (setRequestID c k) None) as (_ & _ & Hid & _).
  rewrite Hid. cbn [autocompletionRequestID setRequestID].
  rewrite Z.eqb_refl. cbn [negb].
  apply setState_fields.
Qed.

End Requests.

Section Popup.

Import Autocomplete.

Local Open Scope Q_scope.

Lemma Qltb_true (x y : Q) : Qltb x y = true <-> x < y.
Proof.
  unfold Qltb. rewrite Bool.negb_true_iff. split.
  - intros H. apply Qnot_le_lt. intros Hle.
    apply Qle_bool_iff in Hle. congruence.
  - intros H. destruct (Qle_bool y x) eqn:E; [|reflexivity].
    apply Qle_bool_iff in E. exfalso. exact (Qlt_not_le _ _ H E).
Qed.

Lemma rows_nonnegative (itemCount : nat) :
  0 <= RowHeight * inject_Z (Z.of_nat itemCount).
Proof.
  apply Qmult_le_0_compat; [discriminate|].
  change 0 with (inject_Z 0). rewrite <- Zle_Qle. lia.
Qed.

(** X15. Whenever a popup is rendered, its height is at most the default
    popup height of 100 and at most the height of all its rows, 29 each. It
    is not negative when there is no window to measure, when the caret is
    not below the bottom of the window by more than the offset, or when
    there are at least 100 above the caret. *)
Theorem popup_height_bounds
    (caretTop caretLeft scrollTop scrollLeft rectTop : Q)
    (innerHeight : option Q) (itemCount : nat) (style : PopupStyle) :
  popupStyle caretTop caretLeft scrollTop scrollLeft rectTop innerHeight
    itemCount = Some style ->
  let popupAbsoluteTop := rectTop + (caretTop - scrollTop) in
  height style <= 100
  /\ height style <= 29 * inject_Z (Z.of_nat itemCount)
  /\ (match innerHeight with
      | None => True
      | Some windowHeight =>
          0 <= windowHeight - popupAbsoluteTop - 20
          \/ 100 <= popupAbsoluteTop
      end -> 0 <= height style).
Proof.
  intros E popupAbsoluteTop. unfold popupStyle in E.
  destruct itemCount as [|n]; [discriminate|].
  set (rows := RowHeight * inject_Z (Z.of_nat (S n))) in *.
  assert (Hrows : 0 <= rows) by apply rows_nonnegative.
  destruct innerHeight as [windowHeight|].
  - fold popupAbsoluteTop in E.
    set (space := windowHeight - popupAbsoluteTop - YOffset) in *.
    destruct (Qltb space DefaultPopupHeight
              && Qle_bool DefaultPopupHeight popupAbsoluteTop) eqn:Htest.
    + injection E as <-. cbn [height].
      repeat split.
      * apply Q.le_min_r.
      * apply Q.le_min_l.
      * intros _. apply Q.min_glb; [exact Hrows | discriminate].
    + injection E as <-. cbn [height].
      repeat split.
      * eapply Qle_trans; [apply Q.le_min_r | apply Q.le_min_l].
      * apply Q.le_min_l.
      * intros [Hspace | Habove].
        -- apply Q.min_glb; [exact Hrows|].
           apply Q.min_glb; [discriminate | exact Hspace].
        -- apply Bool.andb_false_iff in Htest.
           destruct Htest as [Hlt | Hle].
           ++ apply Q.min_glb; [exact Hrows|].
              apply Q.min_glb; [discriminate|].
              apply Qnot_lt_le. intros Hneg.
              assert (Hsmall : space < DefaultPopupHeight).
              { eapply Qlt_trans; [exact Hneg | reflexivity]. }
              apply Qltb_true in Hsmall. congruence.
           ++ apply Qle_bool_iff in Habove. unfold DefaultPopupHeight in Hle.
              congruence.
  - injection E as <-. cbn [height].
    repeat split.
    + apply Q.le_min_r.
    + apply Q.le_min_l.
    + intros _. apply Q.min_glb; [exact Hrows | discriminate].
Qed.

(** X16. The popup is placed above the caret, anchored by its bottom,
    exactly when the window leaves less than 100 below the caret and there
    are at least 100 above it; its height is then the smaller of 100 and
    the height of its rows. In every other case it is placed below the
    caret, anchored by its top. *)
Theorem popup_placement
    (caretTop caretLeft scrollTop scrollLeft rectTop : Q)
    (innerHeight : option Q) (itemCount : nat) (style : PopupStyle) :
  popupStyle caretTop caretLeft scrollTop scrollLeft rectTop innerHeight
    itemCount = Some style ->
  let popupAbsoluteTop := rectTop + (caretTop - scrollTop) in
  let above :=
    exists windowHeight,
      innerHeight = Some windowHeight
      /\ windowHeight - popupAbsoluteTop - 20 < 100
      /\ 100 <= popupAbsoluteTop in
  (above ->
   top style = None
   /\ bottom style = Some (caretTop - scrollTop + 20 + 1)
   /\ height style = Qmin (29 * inject_Z (Z.of_nat itemCount)) 100)
  /\ (~ above ->
      top style = Some (caretTop - scrollTop + 20)
      /\ bottom style = None)
  /\ left style = caretLeft - scrollLeft.
Proof.
  intros E popupAbsoluteTop above. unfold popupStyle in E.
  destruct itemCount as [|n]; [discriminate|].
  destruct innerHeight as [windowHeight|].
  - fold popupAbsoluteTop in E.
    set (space := windowHeight - popupAbsoluteTop - YOffset) in *.
    destruct (Qltb space DefaultPopupHeight
              && Qle_bool DefaultPopupHeight popupAbsoluteTop) eqn:Htest.
    + injection E as <-. cbn [top bottom left height].
      split; [intros _ | split; [intros Hnot|]].
      * repeat split; reflexivity.
      * exfalso. apply Hnot.
        apply Bool.andb_true_iff in Htest. destruct Htest as [Hlt Hle].
        exists windowHeight. repeat split.
        -- now apply Qltb_true in Hlt.
        -- now apply Qle_bool_iff in Hle.
      * reflexivity.
    + injection E as <-. cbn [top bottom left height].
      split; [intros (h & Hh & Hlt & Hle) | split; [intros _|]].
      * exfalso. injection Hh as <-.
        apply Qltb_true in Hlt. apply Qle_bool_iff in Hle.
        change (Qltb space DefaultPopupHeight = true) in Hlt.
        change (Qle_bool DefaultPopupHeight popupAbsoluteTop = true) in Hle.
        rewrite Hlt, Hle in Htest. discriminate.
      * split; reflexivity.
      * reflexivity.
  - injection E as <-. cbn [top bottom left height].
    split; [intros (h & Hh & _); discriminate | split; [intros _|]].
    + split; reflexivity.
    + reflexivity.
Qed.

End Popup.

(** * Properties of the packaging script *)

Section Packaging.

Import Package.

Context {E : Environment}.

Lemma does_then (A : Type) (e : Event) (k : Script A) :
  (does e ;;. k) = (e :: fst k, snd k).
Proof. unfold does, andThen. now destruct k. Qed.

Lemma append_inv_head (p x y : string) :
  (p ++ x)%string = (p ++ y)%string -> x = y.
Proof.
  induction p as [|ch p IH]; cbn; intros H; [exact H|].
  injection H as H. now apply IH.
Qed.

Lemma renameAll_run (done rest : list string) :
  Forall (fun kind =>
            renameRejects (fst (renaming kind)) (snd (renaming kind)) = None)
    done ->
  renameAll (getWindowsIdentifierName ++ "-" ++ getVersion)%string
    getDistArchitecture (done ++ rest)
  = (flat_map renamingEvents done
     ++ fst (renameAll (getWindowsIdentifierName ++ "-" ++ getVersion)%string
               getDistArchitecture rest),
     snd (renameAll (getWindowsIdentifierName ++ "-" ++ getVersion)%string
            getDistArchitecture rest)).
Proof.
  induction done as [|kind done IH]; intros Hdone; cbn [app flat_map].
  - now destruct (renameAll _ _ rest).
  - inversion Hdone as [|? ? Hkind Hrest]; subst.
    cbn [renameAll]. rewrite !does_then.
    change (join [outputDir;
                  nupkgFrom (getWindowsIdentifierName ++ "-" ++ getVersion)
                    kind]) with (fst (renaming kind)).
    change (join [outputDir;
                  nupkgTo (getWindowsIdentifierName ++ "-" ++ getVersion)
                    getDistArchitecture kind]) with (snd (renaming kind)).
    rewrite Hkind, (IH Hrest). reflexivity.
Qed.

Lemma renames_app (t1 t2 : list Event) :
  renames (t1 ++ t2) = renames t1 ++ renames t2.
Proof. apply flat_map_app. Qed.

Lemma renames_renamingEvents (ks : list string) :
  renames (flat_map renamingEvents ks) = map renaming ks.
Proof.
  induction ks as [|kind ks IH]; [reflexivity|].
  cbn [flat_map map]. rewrite renames_app, IH.
  unfold renamingEvents, renames. cbn [flat_map app].
  now rewrite <- surjective_pairing.
Qed.

(** The upshot of the synchronous code of the script on Windows, when the
    icon and the splash screen are there and the updates URL is one. *)
Lemma main_windows_started (remote : option string) :
  platform = "win32" ->
  existsSync iconSource = true ->
  existsSync splashScreenPath = true ->
  (if shouldMakeDelta
   then urlWithSearchParam getUpdatesURL "bypassStaggeredRelease" "1"
   else None) = remote ->
  (shouldMakeDelta = true -> remote <> None) ->
  main
  = ([ConsoleLog "Packaging for Windows…";
      CreateWindowsInstaller (windowsOptions remote);
      ConsoleLog "Writing bundle size info…";
      WriteFileSync bundleSizeFile bundleSizes]
     ++ (if writeFileSyncThrows bundleSizeFile then []
         else fst (installerSettled (windowsOptions remote))),
     if writeFileSyncThrows bundleSizeFile then inl Uncaught
     else snd (installerSettled (windowsOptions remote))).
Proof.
  intros Hplatform Hicon Hsplash Hremote Hurl.
  unfold main, packageWindows. rewrite Hplatform, Hicon, Hsplash.
  cbn [String.eqb Ascii.eqb Bool.eqb negb andb].
  fold bundleSizeFile.
  destruct shouldMakeDelta.
  - destruct (urlWithSearchParam getUpdatesURL "bypassStaggeredRelease" "1")
      as [url|]; subst remote; [|now exfalso; apply Hurl].
    unfold andThen, pure, does, call.
    destruct (writeFileSyncThrows bundleSizeFile); [reflexivity|].
    now destruct (installerSettled (windowsOptions (Some url))).
  - subst remote. unfold andThen, pure, does, call.
    destruct (writeFileSyncThrows bundleSizeFile); [reflexivity|].
    now destruct (installerSettled (windowsOptions None)).
Qed.

(** The script on macOS. *)
Lemma main_darwin_run :
  platform = "darwin" ->
  let dest := getOSXZipPath in
  main
  = if rmSyncThrows dest then ([RmSync dest], inl Uncaught)
    else if execSyncThrows (dittoCommand dest)
    then ([RmSync dest; ConsoleLog "Packaging for macOS…";
           ExecSync (dittoCommand dest)], inl Uncaught)
    else ([RmSync dest; ConsoleLog "Packaging for macOS…";
           ExecSync (dittoCommand dest);
           ConsoleLog "Writing bundle size info…";
           WriteFileSync bundleSizeFile bundleSizes],
          if writeFileSyncThrows bundleSizeFile then inl Uncaught
          else inr tt).
Proof.
  intros Hplatform dest. unfold main, packageOSX. rewrite Hplatform.
  cbn [String.eqb Ascii.eqb Bool.eqb]. fold dest. fold bundleSizeFile.
  unfold andThen, pure, does, call.
  destruct (rmSyncThrows dest); [reflexivity|].
  destruct (execSyncThrows (dittoCommand dest)); [reflexivity|].
  destruct (writeFileSyncThrows bundleSizeFile); reflexivity.
Qed.

(** The script where it does not get to start the installer. *)
Lemma main_not_started :
  platform <> "darwin" ->
  platform <> "win32"
  \/ existsSync iconSource = false
  \/ existsSync splashScreenPath = false
  \/ (shouldMakeDelta = true
      /\ urlWithSearchParam getUpdatesURL "bypassStaggeredRelease" "1"
         = None) ->
  (exists message, main = ([ConsoleError message], inl (Exit 1)))
  \/ main = ([], inl Uncaught).
Proof.
  intros Hdarwin Hcase. unfold main.
  destruct (String.eqb_spec platform "darwin") as [|_]; [contradiction|].
  destruct (String.eqb_spec platform "win32") as [Hwin|Hother].
  - destruct Hcase as [Hno | Hcase]; [contradiction|].
    unfold packageWindows.
    destruct (existsSync iconSource).
    + destruct Hcase as [Hno | Hcase]; [discriminate|].
      destruct (existsSync splashScreenPath).
      * destruct Hcase as [Hno | [Hdelta Hurl]]; [discriminate|].
        rewrite Hdelta, Hurl. right. reflexivity.
      * left. eexists. reflexivity.
    + left. eexists. reflexivity.
  - left. eexists. reflexivity.
Qed.

(** X18. On a platform that is neither macOS nor Windows, and on Windows
    when the setup icon or the splash screen is not where it is expected,
    the script writes one message to the error console and exits with
    status 1: nothing is removed, packaged, renamed or written. *)
Theorem main_refuses :
  (platform <> "darwin" /\ platform <> "win32")
  \/ (platform = "win32"
      /\ (existsSync iconSource = false
          \/ existsSync splashScreenPath = false)) ->
  exists message, main = ([ConsoleError message], inl (Exit 1)).
Proof.
  intros Hcase. unfold main.
  destruct Hcase as [[Hdarwin Hwin] | [Hwin Hmissing]].
  - destruct (String.eqb_spec platform "darwin") as [|_]; [contradiction|].
    destruct (String.eqb_spec platform "win32") as [|_]; [contradiction|].
    eexists. reflexivity.
  - rewrite Hwin. cbn [String.eqb Ascii.eqb Bool.eqb].
    unfold packageWindows.
    destruct (existsSync iconSource); [|eexists; reflexivity].
    destruct Hmissing as [Hno | Hno]; [discriminate|].
    rewrite Hno. eexists. reflexivity.
Qed.

Lemma installerSettled_run (options : Options) (done rest : list string) :
  installerRejects options = None ->
  kinds = done ++ rest ->
  Forall (fun kind =>
            renameRejects (fst (renaming kind)) (snd (renaming kind)) = None)
    done ->
  installerSettled options
  = (ConsoleLog ("Installers created in " ++ outputDir)%string
     :: flat_map renamingEvents done
     ++ fst (renameAll (getWindowsIdentifierName ++ "-" ++ getVersion)%string
               getDistArchitecture rest),
     snd (renameAll (getWindowsIdentifierName ++ "-" ++ getVersion)%string
            getDistArchitecture rest)).
Proof.
  intros Hinstaller Hkinds Hdone. unfold installerSettled.
  rewrite Hinstaller, does_then. fold kinds. rewrite Hkinds.
  now rewrite (@renameAll_run done rest Hdone).
Qed.

(** X19. On Windows, when the icon and the splash screen are there, the
    updates URL is one and nothing fails, the script starts the installer,
    then writes the bundle sizes, and only when the installers are created
    renames the packages: the full one, and after it the delta one exactly
    when deltas are made. It ends without exiting. *)
Theorem main_windows_packages (remote : option string) :
  platform = "win32" ->
  existsSync iconSource = true ->
  existsSync splashScreenPath = true ->
  (if shouldMakeDelta
   then urlWithSearchParam getUpdatesURL "bypassStaggeredRelease" "1"
   else None) = remote ->
  (shouldMakeDelta = true -> remote <> None) ->
  writeFileSyncThrows bundleSizeFile = false ->
  installerRejects (windowsOptions remote) = None ->
  Forall (fun kind =>
            renameRejects (fst (renaming kind)) (snd (renaming kind)) = None)
    kinds ->
  main
  = ([ConsoleLog "Packaging for Windows…";
      CreateWindowsInstaller (windowsOptions remote);
      ConsoleLog "Writing bundle size info…";
      WriteFileSync bundleSizeFile bundleSizes;
      ConsoleLog ("Installers created in " ++ outputDir)%string]
     ++ flat_map renamingEvents kinds,
     inr tt)
  /\ renames (fst main)
     = renaming "full"
       :: (if shouldMakeDelta then [renaming "delta"] else []).
Proof.
  intros Hplatform Hicon Hsplash Hremote Hurl Hwrite Hinstaller Hrenames.
  assert (Hmain : main
                  = ([ConsoleLog "Packaging for Windows…";
                      CreateWindowsInstaller (windowsOptions remote);
                      ConsoleLog "Writing bundle size info…";
                      WriteFileSync bundleSizeFile bundleSizes;
                      ConsoleLog ("Installers created in " ++ outputDir)%string]
                     ++ flat_map renamingEvents kinds,
                     inr tt)).
  { rewrite (main_windows_started Hplatform Hicon Hsplash Hremote Hurl).
    rewrite Hwrite.
    rewrite (@installerSettled_run (windowsOptions remote) kinds []
               Hinstaller (eq_sym (app_nil_r kinds)) Hrenames).
    cbn [renameAll pure fst snd app]. now rewrite app_nil_r. }
  split; [exact Hmain|].
  rewrite Hmain. cbn [fst app].
  change (renames (?a :: ?b :: ?c :: ?d :: ?e :: ?rest))
    with (renames rest).
  rewrite renames_renamingEvents. unfold kinds.
  now destruct shouldMakeDelta.
Qed.

(** X20. When the renaming of one kind of package is rejected, the script
    reports the error and exits with status 1; the kinds before it have
    been renamed, those after it are left as they are. When the installer
    is rejected, nothing is renamed at all. In both cases the bundle sizes
    have been written before. *)
Theorem main_windows_failure (remote : option string)
    (done rest : list string) (kind : string) (e : Err) :
  platform = "win32" ->
  existsSync iconSource = true ->
  existsSync splashScreenPath = true ->
  (if shouldMakeDelta
   then urlWithSearchParam getUpdatesURL "bypassStaggeredRelease" "1"
   else None) = remote ->
  (shouldMakeDelta = true -> remote <> None) ->
  writeFileSyncThrows bundleSizeFile = false ->
  (installerRejects (windowsOptions remote) = Some e ->
   main = (windowsPrelude remote
           ++ [ConsoleError ("Error packaging: " ++ errorText e)%string],
           inl (Exit 1)))
  /\ (installerRejects (windowsOptions remote) = None ->
      kinds = done ++ kind :: rest ->
      Forall (fun kind =>
                renameRejects (fst (renaming kind)) (snd (renaming kind))
                = None) done ->
      renameRejects (fst (renaming kind)) (snd (renaming kind)) = Some e ->
      main = (windowsPrelude remote
              ++ ConsoleLog ("Installers created in " ++ outputDir)%string
                 :: flat_map renamingEvents done
              ++ renamingEvents kind
              ++ [ConsoleError ("Error packaging: " ++ errorText e)%string],
              inl (Exit 1))
      /\ renames (fst main) = map renaming (done ++ [kind])).
Proof.
  intros Hplatform Hicon Hsplash Hremote Hurl Hwrite.
  rewrite (main_windows_started Hplatform Hicon Hsplash Hremote Hurl).
  rewrite Hwrite. split.
  - intros Hinstaller. unfold installerSettled. rewrite Hinstaller.
    reflexivity.
  - intros Hinstaller Hkinds Hdone Hkind.
    rewrite (@installerSettled_run (windowsOptions remote) done
               (kind :: rest) Hinstaller Hkinds Hdone).
    cbn [renameAll]. rewrite !does_then.
    change (join [outputDir;
                  nupkgFrom (getWindowsIdentifierName ++ "-" ++ getVersion)
                    kind]) with (fst (renaming kind)).
    change (join [outputDir;
                  nupkgTo (getWindowsIdentifierName ++ "-" ++ getVersion)
                    getDistArchitecture kind]) with (snd (renaming kind)).
    rewrite Hkind, does_then. cbn [exit stop fst snd].
    split; [reflexivity|].
    unfold windowsPrelude. cbn [fst app].
    change (renames (?a :: ?b :: ?c :: ?d :: ?e :: ?t)) with (renames t).
    rewrite renames_app, renames_renamingEvents, map_app.
    f_equal.
Qed.

Lemma renameAll_ending (prefix arch : string) (ks : list string) :
  snd (renameAll prefix arch ks) = inr tt
  \/ snd (renameAll prefix arch ks) = inl (Exit 1).
Proof.
  induction ks as [|kind ks IH]; cbn [renameAll]; [now left|].
  rewrite !does_then. cbn [snd].
  destruct (renameRejects _ _); [right; reflexivity | exact IH].
Qed.

(** X21. On macOS the first call of the script is [rmSync] on the old
    archive. It calls [execSync] with the [ditto] command exactly when that
    removal does not throw, and [writeFileSync] with the bundle sizes
    exactly when neither the removal nor [ditto] throws. That last call
    returns and the script runs to its end exactly when none of the three
    calls throws; otherwise an exception nothing catches ends the script.
    It never renames anything. *)
Theorem main_darwin :
  platform = "darwin" ->
  let dest := getOSXZipPath in
  hd_error (fst main) = Some (RmSync dest)
  /\ (In (ExecSync (dittoCommand dest)) (fst main)
      <-> rmSyncThrows dest = false)
  /\ (In (WriteFileSync bundleSizeFile bundleSizes) (fst main)
      <-> rmSyncThrows dest = false
          /\ execSyncThrows (dittoCommand dest) = false)
  /\ (snd main = inr tt
      <-> rmSyncThrows dest = false
          /\ execSyncThrows (dittoCommand dest) = false
          /\ writeFileSyncThrows bundleSizeFile = false)
  /\ (snd main <> inr tt -> snd main = inl Uncaught)
  /\ renames (fst main) = [].
Proof.
  intros Hplatform dest. rewrite (main_darwin_run Hplatform). fold dest.
  destruct (rmSyncThrows dest), (execSyncThrows (dittoCommand dest)),
    (writeFileSyncThrows bundleSizeFile);
    cbn [fst snd hd_error In renames flat_map app];
    repeat split; intros; try reflexivity; try discriminate;
    repeat match goal with
           | H : _ /\ _ |- _ => destruct H
           | H : _ \/ _ |- _ => destruct H
           | H : False |- _ => contradiction
           end;
    try discriminate; try tauto.
Qed.

Lemma started_invariants (remote : option string) :
  platform = "win32" ->
  let run :=
    (windowsPrelude remote
     ++ (if writeFileSyncThrows bundleSizeFile then []
         else fst (installerSettled (windowsOptions remote))),
     if writeFileSyncThrows bundleSizeFile
     then inl Uncaught
     else snd (installerSettled (windowsOptions remote))) in
  (forall code, snd run = inl (Exit code) -> code = 1%Z)
  /\ (snd run = inr tt ->
      In (WriteFileSync bundleSizeFile bundleSizes) (fst run))
  /\ (renames (fst run) <> [] ->
      platform = "win32"
      /\ exists remote' rest,
           fst run
           = windowsPrelude remote'
             ++ ConsoleLog ("Installers created in " ++ outputDir)%string
                :: rest).
Proof.
  intros Hwin run. subst run. cbn [fst snd].
  destruct (writeFileSyncThrows bundleSizeFile).
  { rewrite app_nil_r. (split; [|split]).
    - intros code H. discriminate H.
    - intros H. discriminate H.
    - intros H. exfalso. now apply H. }
  unfold installerSettled.
  destruct (installerRejects (windowsOptions remote)) as [e|].
  { rewrite does_then. cbn [fst snd exit stop]. (split; [|split]).
    - intros code H. now injection H as <-.
    - discriminate.
    - intros H. exfalso. now apply H. }
  rewrite does_then. cbn [fst snd]. (split; [|split]).
  - intros code H.
    destruct (renameAll_ending
                (getWindowsIdentifierName ++ "-" ++ getVersion)%string
                getDistArchitecture
                (if shouldMakeDelta then ["full"; "delta"] else ["full"]))
      as [Hend | Hend]; rewrite Hend in H; [discriminate|].
    now injection H as <-.
  - intros _. cbn. tauto.
  - intros _. split; [exact Hwin|]. do 2 eexists. reflexivity.
Qed.

(** X22. Whatever the platform and the world are like: the only status the
    script ever exits with is 1; a run that gets to its end has written
    the bundle sizes; and when anything is renamed, the platform is Windows
    and the run began by starting the installer and writing the bundle
    sizes, the installers having been created before the first renaming. *)
Theorem main_invariants :
  (forall code, snd main = inl (Exit code) -> code = 1%Z)
  /\ (snd main = inr tt ->
      In (WriteFileSync bundleSizeFile bundleSizes) (fst main))
  /\ (renames (fst main) <> [] ->
      platform = "win32"
      /\ exists remote rest,
           fst main
           = windowsPrelude remote
             ++ ConsoleLog ("Installers created in " ++ outputDir)%string
                :: rest).
Proof.
  destruct (string_dec platform "darwin") as [Hdarwin | Hdarwin].
  { rewrite (main_darwin_run Hdarwin).
    destruct (rmSyncThrows getOSXZipPath),
      (execSyncThrows (dittoCommand getOSXZipPath)),
      (writeFileSyncThrows bundleSizeFile);
      cbn [fst snd renames flat_map app In];
      (split; [intros code H; discriminate H
              |split; [intros H; try discriminate H; tauto
                      |intros H; exfalso; now apply H]]). }
  assert (Hnot : (exists message, main = ([ConsoleError message], inl (Exit 1)))
                 \/ main = ([], inl Uncaught) ->
                 (forall code, snd main = inl (Exit code) -> code = 1%Z)
                 /\ (snd main = inr tt ->
                     In (WriteFileSync bundleSizeFile bundleSizes) (fst main))
                 /\ (renames (fst main) <> [] ->
                     platform = "win32"
                     /\ exists remote rest,
                          fst main
                          = windowsPrelude remote
                            ++ ConsoleLog
                                 ("Installers created in " ++ outputDir)%string
                               :: rest)).
  { intros [[message ->] | ->]; cbn [fst snd renames flat_map app];
      (split; [intros code H; try discriminate H; now injection H as <-
              |split; [intros H; discriminate H
                      |intros H; exfalso; now apply H]]). }
  destruct (string_dec platform "win32") as [Hwin | Hwin];
    [|apply Hnot, (main_not_started Hdarwin); now left].
  destruct (existsSync iconSource) eqn:Hicon;
    [|apply Hnot, (main_not_started Hdarwin); tauto].
  destruct (existsSync splashScreenPath) eqn:Hsplash;
    [|apply Hnot, (main_not_started Hdarwin); tauto].
  destruct (Bool.bool_dec shouldMakeDelta true) as [Hdelta | Hdelta].
  - destruct (urlWithSearchParam getUpdatesURL "bypassStaggeredRelease" "1")
      as [url|] eqn:Hurl;
      [|apply Hnot, (main_not_started Hdarwin); tauto].
    assert (Hremote : (if shouldMakeDelta
                       then urlWithSearchParam getUpdatesURL
                              "bypassStaggeredRelease" "1"
                       else None) = Some url)
      by now rewrite Hdelta, Hurl.
    rewrite (main_windows_started Hwin Hicon Hsplash Hremote)
      by (intros _; discriminate).
    now apply started_invariants.
  - assert (Hremote : (if shouldMakeDelta
                       then urlWithSearchParam getUpdatesURL
                              "bypassStaggeredRelease" "1"
                       else None) = None)
      by (destruct shouldMakeDelta; [contradiction | reflexivity]).
    rewrite (main_windows_started Hwin Hicon Hsplash Hremote)
      by (intros H; contradiction).
    now apply started_invariants.
Qed.

(** X23. The names of the packages before and after the renaming are four
    different names, whatever the prefix and the architecture are: no
    renaming can hit the file of another. *)
Theorem nupkg_names_distinct (prefix arch : string) :
  NoDup [nupkgFrom prefix "full"; nupkgFrom prefix "delta";
         nupkgTo prefix arch "full"; nupkgTo prefix arch "delta"].
Proof.
  assert (Hlen : forall a b : string, a = b ->
                                      String.length a = String.length b)
    by (intros a b ->; reflexivity).
  unfold nupkgFrom, nupkgTo.
  repeat constructor; cbn [In]; intros H;
    repeat match goal with
           | H : _ \/ _ |- _ => destruct H as [H | H]
           | H : False |- _ => contradiction
           end;
    apply append_inv_head in H; cbn in H; injection H as H;
    try discriminate H;
    try (apply append_inv_head in H; discriminate H);
    try (symmetry in H);
    try (pose proof (Hlen _ _ H) as Hl; rewrite length_append in Hl;
         cbn in Hl;
         (lia
          || (destruct arch; [discriminate H | cbn in Hl; lia]))).
Qed.

End Packaging.

(** * The further properties at concrete inputs *)

Lemma checkoutConflictedFile_invocation_sample :
  ConflictSample.resolutionText true <> ""
  /\ @checkoutConflictedFile (Sample.collaborators false false) _
       ConflictSample.resolutionText _ ConflictSample.filePath
       Sample.repo "-rf" true
     = ([Git ["checkout"; "--ours"; "--"; "-rf"] "/home/me/project"
           "checkoutConflictedFile" None],
        inr tt)
  /\ afterSeparator ["checkout"; "--ours"; "--"; "-rf"] = Some ["-rf"].
Proof.
  assert (H : ConflictSample.resolutionText true <> "") by discriminate.
  split; [exact H|].
  exact (@checkoutConflictedFile_invocation (Sample.collaborators false false)
           bool string ConflictSample.resolutionText ConflictSample.filePath
           Sample.repo "-rf" true H).
Defined.


Section AutocompleteWitnesses.

Import Autocomplete.

Lemma insertCompletion_replaces_range_sample :
  (element AutocompleteSample.opened = Some AutocompleteSample.input
   /\ autocompletionState AutocompleteSample.opened = Some AutocompleteSample.popup
   /\ value AutocompleteSample.input
      = ("hi " ++ String AutocompleteSample.atSign "jo" ++ " there")%string
   /\ start (range AutocompleteSample.popup)
      = (Z.of_nat (String.length "hi ") + 1)%Z
   /\ length (range AutocompleteSample.popup)
      = Z.of_nat (String.length "jo"))
  /\ exists c' pending,
       insertCompletion AutocompleteSample.opened "john" mouseclick = Some (c', pending)
       /\ option_map value (element c') = Some "hi @john  there"
       /\ autocompletionState c' = None
       /\ effects c'
          = [ValueChanged "hi @john  there"; FocusLater 9;
             ItemSelected "john"].
Proof.
  split; [repeat split|].
  exact (@insertCompletion_replaces_range string AutocompleteSample.opened
           AutocompleteSample.input AutocompleteSample.popup "john"
           mouseclick "hi " "jo" " there" AutocompleteSample.atSign
           eq_refl eq_refl eq_refl eq_refl eq_refl).
Defined.

Lemma insertCompletion_caret_sample :
  (start (range AutocompleteSample.popup)
   = (Z.of_nat (String.length "hi ") + 1)%Z
   /\ length (range AutocompleteSample.popup)
      = Z.of_nat (String.length "jo"))
  /\ exists c' e' pending caret,
       insertCompletion AutocompleteSample.opened "john" keyboard = Some (c', pending)
       /\ element c' = Some e'
       /\ selectionStart e' = Some caret
       /\ selectionEnd e' = Some caret
       /\ substr (value e') 0 caret = "hi @john "
       /\ substring (value e') caret = " there".
Proof.
  split; [split; reflexivity|].
  exact (@insertCompletion_caret string AutocompleteSample.opened
           AutocompleteSample.input AutocompleteSample.popup "john"
           "hi " "jo" " there" AutocompleteSample.atSign
           eq_refl eq_refl eq_refl eq_refl eq_refl).
Defined.

Lemma insertCompletion_at_start_sample :
  (start (range AutocompleteSample.popupAtStart) = 0%Z
   /\ length (range AutocompleteSample.popupAtStart)
      = Z.of_nat (String.length "jo"))
  /\ exists c' pending,
       insertCompletion
         (AutocompleteSample.component false
            {| value := "jo there"; selectionStart := Some 2%Z;
               selectionEnd := Some 2%Z |}
            (Some AutocompleteSample.popupAtStart))
         "john" keyboard = Some (c', pending)
       /\ option_map value (element c') = Some "@john  there".
Proof.
  split; [split; reflexivity|].
  exact (@insertCompletion_at_start string
           (AutocompleteSample.component false
              {| value := "jo there"; selectionStart := Some 2%Z;
                 selectionEnd := Some 2%Z |}
              (Some AutocompleteSample.popupAtStart))
           _ AutocompleteSample.popupAtStart "john" keyboard "jo" " there"
           eq_refl eq_refl eq_refl eq_refl eq_refl).
Defined.

Lemma insertCompletion_keeps_ends_sample :
  (element AutocompleteSample.opened = Some AutocompleteSample.input
   /\ autocompletionState AutocompleteSample.opened = Some AutocompleteSample.popup)
  /\ exists c' pending head tail,
       insertCompletion AutocompleteSample.opened "john" keyboard = Some (c', pending)
       /\ option_map value (element c')
          = Some (head ++ "@john" ++ " " ++ tail)%string
       /\ (exists rest, "hi @jo there" = (head ++ rest)%string)
       /\ (exists before, "hi @jo there" = (before ++ tail)%string).
Proof.
  split; [split; reflexivity|].
  exact (@insertCompletion_keeps_ends string AutocompleteSample.opened
           AutocompleteSample.input AutocompleteSample.popup "john" keyboard
           eq_refl eq_refl).
Defined.

Lemma attemptAutocompletion_null_or_fatal_sample :
  ((exists fuel,
      attemptAutocompletion fuel AutocompleteSample.closed "hi @jo there" 5
        "17" = Some (Resolved None))
   <-> Forall (providerPassedOver false "hi @jo there" 5)
         [AutocompleteSample.mentions])
  /\ providerNeverLeft false "hi @jo there" 6 AutocompleteSample.blanks
  /\ forall fuel,
       attemptAutocompletion fuel AutocompleteSample.stuck "hi @jo there" 6
         "17" = None.
Proof.
  assert (Hnever : providerNeverLeft false "hi @jo there" 6
                     AutocompleteSample.blanks).
  { split; [reflexivity|]. intros n k _. exists (0%Z, Some "").
    split; [reflexivity|]. split; [reflexivity | discriminate]. }
  split; [|split; [exact Hnever|]].
  - exact (proj1 (@attemptAutocompletion_null_or_fatal string
                    AutocompleteSample.closed "hi @jo there" 5%Z "17")).
  - apply (proj2 (proj2 (@attemptAutocompletion_null_or_fatal string
                           AutocompleteSample.stuck "hi @jo there" 6%Z
                           "17"))).
    exists [], AutocompleteSample.blanks, [AutocompleteSample.mentions].
    split; [reflexivity|]. split; [constructor | exact Hnever].
Defined.

Lemma attemptAutocompletion_state_sample :
  attemptAutocompletion 2 AutocompleteSample.closed "hi @jo there" 6 "17"
  = Some (Resolved
            (Some (stateOf (props AutocompleteSample.closed) "17"
                     AutocompleteSample.mentions 6 "jo")))
  /\ (alwaysAutocomplete (props AutocompleteSample.closed) = false ->
      (start (range (stateOf (props AutocompleteSample.closed) "17"
                       AutocompleteSample.mentions 6 "jo"))
       + length (range (stateOf (props AutocompleteSample.closed) "17"
                          AutocompleteSample.mentions 6 "jo")))%Z = 6%Z).
Proof.
  assert (H : attemptAutocompletion 2 AutocompleteSample.closed
                "hi @jo there" 6 "17"
              = Some (Resolved
                        (Some (stateOf (props AutocompleteSample.closed) "17"
                                 AutocompleteSample.mentions 6 "jo"))))
    by reflexivity.
  split; [exact H|].
  exact (proj1 (proj2 (proj2 (proj2 (proj2
           (@attemptAutocompletion_state string 2 AutocompleteSample.closed
              "hi @jo there" 6%Z "17" _ H)))))).
Defined.

Lemma attemptAutocompletion_first_match_sample :
  (alwaysAutocomplete (props AutocompleteSample.closed) = false
   /\ regexExec AutocompleteSample.mentions "hi @jo there" 0
      = Some (6%Z, Some "jo"))
  /\ exists state enough,
       (forall fuel, enough <= fuel ->
          attemptAutocompletion fuel AutocompleteSample.closed
            "hi @jo there" 6 "17" = Some (Resolved (Some state)))
       /\ provider state = AutocompleteSample.mentions
       /\ rangeText state = "jo"
       /\ start (range state) = 4%Z
       /\ length (range state) = 2%Z.
Proof.
  split; [split; reflexivity|].
  apply (@attemptAutocompletion_first_match string AutocompleteSample.closed
           "hi @jo there" 6%Z "17" [] [] AutocompleteSample.mentions 0
           (Some "jo"));
    [reflexivity | reflexivity | constructor | reflexivity | reflexivity |].
  intros k Hk. lia.
Defined.

Lemma attemptAutocompletion_always_sample :
  alwaysAutocomplete (props AutocompleteSample.always) = true
  /\ attemptAutocompletion 2 AutocompleteSample.always "hi @jo there" 0 "17"
     = attemptAutocompletion 2 AutocompleteSample.always "hi @jo there" 6
         "17".
Proof.
  split; [reflexivity|].
  exact (@attemptAutocompletion_always string 2 AutocompleteSample.always
           "hi @jo there" 0%Z 6%Z "17" eq_refl).
Defined.

Lemma open_then_insertCompletion_sample :
  (selectionStart AutocompleteSample.input = Some 6%Z
   /\ alwaysAutocomplete (props AutocompleteSample.closed) = false)
  /\ exists opened c' e' head,
       open 2 AutocompleteSample.closed "hi @jo there" "17" = Some opened
       /\ insertCompletion opened "john" keyboard = Some (c', None)
       /\ element c' = Some e'
       /\ value e' = (head ++ substring "hi @jo there" 6)%string
       /\ selectionStart e' = Some (Z.of_nat (String.length head))
       /\ selectionEnd e' = Some (Z.of_nat (String.length head))
       /\ autocompletionState c' = None.
Proof.
  split; [split; reflexivity|].
  exact (@open_then_insertCompletion string 2 AutocompleteSample.closed
           AutocompleteSample.input 6%Z "17" _ "john" eq_refl eq_refl eq_refl
           eq_refl).
Defined.

Lemma latest_request_wins_sample :
  (openBegin (run AutocompleteSample.closed [Begin "hi @j"]) "hi @jo"
   = (setRequestID AutocompleteSample.closed 2, Some (2%Z, "hi @jo", 6%Z))
   /\ Forall (olderThan 2)
        [End 1 (Resolved (Some AutocompleteSample.popupAtStart))]
   /\ Forall (@olderThan string 2) [End 1 (Resolved None)])
  /\ run AutocompleteSample.closed
       ([Begin "hi @j"] ++ Begin "hi @jo"
        :: [End 1 (Resolved (Some AutocompleteSample.popupAtStart))])
     = setRequestID AutocompleteSample.closed 2
  /\ autocompletionState
       (run AutocompleteSample.closed
          ([Begin "hi @j"] ++ Begin "hi @jo"
           :: [End 1 (Resolved (Some AutocompleteSample.popupAtStart))]
           ++ End 2 (Resolved (Some AutocompleteSample.popup))
           :: [End 1 (Resolved None)]))
     = Some AutocompleteSample.popup
  /\ autocompletionRequestID
       (run AutocompleteSample.closed
          ([Begin "hi @j"] ++ Begin "hi @jo"
           :: [End 1 (Resolved (Some AutocompleteSample.popupAtStart))]
           ++ End 2 (Resolved (Some AutocompleteSample.popup))
           :: [End 1 (Resolved None)]))
     = 2%Z.
Proof.
  assert (H1 : Forall (olderThan 2)
                 [End 1 (Resolved (Some AutocompleteSample.popupAtStart))])
    by (repeat constructor).
  assert (H2 : Forall (olderThan 2)
                 [End 1 (@Resolved string None)])
    by (repeat constructor).
  split; [split; [reflexivity | split; assumption]|].
  exact (@latest_request_wins string AutocompleteSample.closed _
           [Begin "hi @j"] _ _ "hi @jo" "hi @jo" 2%Z 6%Z
           (Some AutocompleteSample.popup) eq_refl H1 H2).
Defined.

Lemma close_keeps_request_sample :
  openBegin AutocompleteSample.opened "hi @jo t"
  = (setRequestID AutocompleteSample.opened 1, Some (1%Z, "hi @jo t", 6%Z))
  /\ autocompletionState
       (openEnd (close (setRequestID AutocompleteSample.opened 1)) 1
          (Resolved (Some AutocompleteSample.popup)))
     = Some AutocompleteSample.popup.
Proof.
  split; [reflexivity|].
  exact (@close_keeps_request string AutocompleteSample.opened _ "hi @jo t" "hi @jo t" 1%Z 6%Z
           (Some AutocompleteSample.popup) eq_refl).
Defined.

Lemma popup_height_bounds_sample :
  popupStyle 40 10 0 0 500 (Some 600%Q) 5
  = Some {| top := None; bottom := Some 61%Q; left := 10; height := 100 |}
  /\ (100 <= 100)%Q
  /\ (100 <= 29 * inject_Z (Z.of_nat 5))%Q
  /\ ((0 <= 600 - (500 + (40 - 0)) - 20)%Q \/ (100 <= 500 + (40 - 0))%Q ->
      (0 <= 100)%Q).
Proof.
  split; [reflexivity|].
  exact (@popup_height_bounds 40 10 0 0 500 (Some 600%Q) 5 _ eq_refl).
Defined.

Lemma popup_placement_sample :
  popupStyle 40 10 0 0 500 (Some 600%Q) 5
  = Some {| top := None; bottom := Some 61%Q; left := 10; height := 100 |}
  /\ ((exists windowHeight,
         Some 600%Q = Some windowHeight
         /\ (windowHeight - (500 + (40 - 0)) - 20 < 100)%Q
         /\ (100 <= 500 + (40 - 0))%Q) ->
      @None Q = None
      /\ Some 61%Q = Some (40 - 0 + 20 + 1)%Q
      /\ 100%Q = Qmin (29 * inject_Z (Z.of_nat 5)) 100).
Proof.
  split; [reflexivity|].
  exact (proj1 (@popup_placement 40 10 0 0 500 (Some 600%Q) 5 _ eq_refl)).
Defined.

End AutocompleteWitnesses.

Section PackageWitnesses.

Import Package.

Lemma main_refuses_sample :
  (@platform (PackageSample.environment "linux" true false) <> "darwin"
   /\ @platform (PackageSample.environment "linux" true false) <> "win32")
  /\ exists message,
       @main (PackageSample.environment "linux" true false)
       = ([ConsoleError message], inl (Exit 1)).
Proof.
  assert (H : @platform (PackageSample.environment "linux" true false)
              <> "darwin"
              /\ @platform (PackageSample.environment "linux" true false)
                 <> "win32")
    by (split; discriminate).
  split; [exact H|].
  exact (@main_refuses (PackageSample.environment "linux" true false)
           (or_introl H)).
Defined.

Lemma main_windows_packages_sample :
  (@platform (PackageSample.environment "win32" true false) = "win32"
   /\ @existsSync (PackageSample.environment "win32" true false)
        (@iconSource (PackageSample.environment "win32" true false)) = true)
  /\ @renames
       (fst (@main (PackageSample.environment "win32" true false)))
     = [("/repo/dist/App-3.0.0-full.nupkg",
         "/repo/dist/App-3.0.0-x64-full.nupkg");
        ("/repo/dist/App-3.0.0-delta.nupkg",
         "/repo/dist/App-3.0.0-x64-delta.nupkg")].
Proof.
  split; [split; reflexivity|].
  exact (proj2
           (@main_windows_packages
              (PackageSample.environment "win32" true false)
              (Some "https://updates.example/?bypassStaggeredRelease=1")
              eq_refl eq_refl eq_refl eq_refl
              (fun _ H => match H with eq_refl => I end)
              eq_refl eq_refl
              (Forall_cons _ eq_refl (Forall_cons _ eq_refl (Forall_nil _))))).
Defined.

Lemma main_windows_failure_sample :
  (@platform (PackageSample.environment "win32" true true) = "win32"
   /\ @renameRejects (PackageSample.environment "win32" true true)
        "/repo/dist/App-3.0.0-full.nupkg"
        "/repo/dist/App-3.0.0-x64-full.nupkg" = Some "EPERM")
  /\ snd (@main (PackageSample.environment "win32" true true))
     = inl (Exit 1)
  /\ @renames (fst (@main (PackageSample.environment "win32" true true)))
     = [("/repo/dist/App-3.0.0-full.nupkg",
         "/repo/dist/App-3.0.0-x64-full.nupkg")].
Proof.
  split; [split; reflexivity|].
  destruct (proj2
              (@main_windows_failure
                 (PackageSample.environment "win32" true true)
                 (Some "https://updates.example/?bypassStaggeredRelease=1")
                 [] ["delta"] "full" "EPERM"
                 eq_refl eq_refl eq_refl eq_refl
                 (fun _ H => match H with eq_refl => I end)
                 eq_refl)
              eq_refl eq_refl (Forall_nil _) eq_refl) as [Hmain Hrenames].
  split; [|exact Hrenames].
  exact (f_equal snd Hmain).
Defined.

Lemma main_darwin_sample :
  @platform (PackageSample.environment "darwin" true false) = "darwin"
  /\ hd_error (fst (@main (PackageSample.environment "darwin" true false)))
     = Some (RmSync "/repo/dist/App-x64.zip")
  /\ In (WriteFileSync
           (@bundleSizeFile (PackageSample.environment "darwin" true false))
           (@bundleSizes (PackageSample.environment "darwin" true false)))
       (fst (@main (PackageSample.environment "darwin" true false)))
  /\ snd (@main (PackageSample.environment "darwin" true false)) = inr tt
  /\ @renames (fst (@main (PackageSample.environment "darwin" true false)))
     = [].
Proof.
  split; [reflexivity|].
  destruct (@main_darwin (PackageSample.environment "darwin" true false)
              eq_refl) as (Hfirst & _ & Hwrite & Hend & _ & Hrenames).
  split; [exact Hfirst|].
  split; [exact (proj2 Hwrite (conj eq_refl eq_refl))|].
  split; [exact (proj2 Hend (conj eq_refl (conj eq_refl eq_refl)))|].
  exact Hrenames.
Defined.

End PackageWitnesses.
